(** * Sentinel: a shallow embedding of [sentinel.ino]

    The sketch is a single-threaded Arduino program: [setup] runs once,
    then [loop] runs forever.  Every global and every function-local
    [static] of the sketch is a field of [World]; the hardware the sketch
    talks to (the millisecond clock, the digital pins, the analog channel)
    is an environment [env] that is sampled once per hardware read, and
    everything the sketch drives (LEDs, piezo, serial port) is appended to
    an effect log.  The code itself is written in a small state monad over
    [World], statement by statement. *)

From Stdlib Require Import ZArith List String Ascii Bool Lia.
From Stdlib Require Import DecimalString DecimalPos DecimalN.
Import ListNotations.
Open Scope string_scope.
Open Scope Z_scope.

(** ** Machine integers *)

(** [unsigned long] / [uint32_t] on the AVR target: 32 bits, wrap-around. *)
Definition u32 (z : Z) : Z := z mod 2 ^ 32.
(** [uint8_t]. *)
Definition u8 (z : Z) : Z := z mod 2 ^ 8.
(** [long]: 32 bits, two's complement. *)
Definition i32 (z : Z) : Z := (z + 2 ^ 31) mod 2 ^ 32 - 2 ^ 31.

(** ** Constants of the sketch *)

Definition HIGH : bool := true.
Definition LOW : bool := false.

Definition TILT_INVERTED : bool := true.

Definition PIN_BUTTON : Z := 13.
Definition PIN_TILT : Z := 12.
Definition PIN_PIEZO : Z := 6.
Definition PIN_LED_R : Z := 2.
Definition PIN_LED_Y : Z := 4.
Definition PIN_LED_G : Z := 3.
(** [A0] is pin 14 on the Uno. *)
Definition PIN_POT : Z := 14.

Inductive State : Type := IDLE | ALERT | ANGRY | COOLDOWN | REWARD | LOCKED.

Definition State_eqb (a b : State) : bool :=
  match a, b with
  | IDLE, IDLE | ALERT, ALERT | ANGRY, ANGRY
  | COOLDOWN, COOLDOWN | REWARD, REWARD | LOCKED, LOCKED => true
  | _, _ => false
  end.

Definition MAX_ANGER : Z := 3.
Definition MIN_STATE_MS : Z := 200.

Definition ALERT_TIMEOUT_MS : Z := 10000.
Definition COOLDOWN_MS : Z := 10000.
Definition ANGRY_CALM_MS : Z := 15000.
Definition REWARD_MS : Z := 8000.

Definition IDLE_REWARD_MIN_MS : Z := 5000.
Definition IDLE_REWARD_MAX_MS : Z := 20000.

Definition TILT_DB_IDLE_MS : Z := 5.
Definition TILT_DB_OTHER_MS : Z := 14.
Definition TILT_REARM_MS : Z := 140.

Definition ANGRY_BLINK_MS : Z := 200.
Definition ANGRY_BEEP_MS : Z := 120.
Definition ANGRY_BEEP_DUR_MS : Z := 35.
Definition ANGRY_BEEP_HZ : Z := 220.

Definition LOCKED_TONE_HZ : Z := 140.

(** ** The world: program variables, environment, effect log *)

(** What the hardware shows at one instant: the free-running millisecond
    counter, the level of each digital pin, the value of each analog
    channel. *)
Record Sample : Type := {
  s_millis : Z;
  s_digital : Z -> bool;
  s_analog : Z -> Z
}.

Inductive PinModeKind : Type := INPUT_PULLUP | OUTPUT.

(** What the sketch does to the outside. *)
Inductive Effect : Type :=
| SerialBegin (baud : Z)
| PinMode (pin : Z) (mode : PinModeKind)
| DigitalWrite (pin : Z) (v : bool)
| Tone (pin hz : Z) (dur : option Z)
| NoTone (pin : Z)
| SerialPrint (s : string)
| SerialPrintln (s : string).

(** [struct TiltEdge]. *)
Record TiltEdge : Type := {
  lastRawAct : bool;
  changedAt : Z;
  armed : bool;
  inactiveSince : Z
}.

Record World : Type := {
  state : State;
  anger : Z;
  enteredAt : Z;
  nextBlinkAt : Z;
  nextBeepAt : Z;
  angryRedOn : bool;
  rngState : Z;
  tilt : TiltEdge;
  (* statics of buttonPressEvent *)
  btn_stable : bool;
  btn_lastRaw : bool;
  btn_changedAt : Z;
  (* static of loop, case LOCKED *)
  holdAt : Z;
  (* the environment: the k-th hardware read sees [env k] *)
  env : nat -> Sample;
  ioCount : nat;
  (* everything written so far, oldest first *)
  out : list Effect
}.

Definition set_state (v : State) (w : World) : World :=
  {| state := v; anger := anger w; enteredAt := enteredAt w;
     nextBlinkAt := nextBlinkAt w; nextBeepAt := nextBeepAt w;
     angryRedOn := angryRedOn w; rngState := rngState w; tilt := tilt w;
     btn_stable := btn_stable w; btn_lastRaw := btn_lastRaw w;
     btn_changedAt := btn_changedAt w; holdAt := holdAt w;
     env := env w; ioCount := ioCount w; out := out w |}.

Definition set_anger (v : Z) (w : World) : World :=
  {| state := state w; anger := v; enteredAt := enteredAt w;
     nextBlinkAt := nextBlinkAt w; nextBeepAt := nextBeepAt w;
     angryRedOn := angryRedOn w; rngState := rngState w; tilt := tilt w;
     btn_stable := btn_stable w; btn_lastRaw := btn_lastRaw w;
     btn_changedAt := btn_changedAt w; holdAt := holdAt w;
     env := env w; ioCount := ioCount w; out := out w |}.

Definition set_enteredAt (v : Z) (w : World) : World :=
  {| state := state w; anger := anger w; enteredAt := v;
     nextBlinkAt := nextBlinkAt w; nextBeepAt := nextBeepAt w;
     angryRedOn := angryRedOn w; rngState := rngState w; tilt := tilt w;
     btn_stable := btn_stable w; btn_lastRaw := btn_lastRaw w;
     btn_changedAt := btn_changedAt w; holdAt := holdAt w;
     env := env w; ioCount := ioCount w; out := out w |}.

Definition set_nextBlinkAt (v : Z) (w : World) : World :=
  {| state := state w; anger := anger w; enteredAt := enteredAt w;
     nextBlinkAt := v; nextBeepAt := nextBeepAt w;
     angryRedOn := angryRedOn w; rngState := rngState w; tilt := tilt w;
     btn_stable := btn_stable w; btn_lastRaw := btn_lastRaw w;
     btn_changedAt := btn_changedAt w; holdAt := holdAt w;
     env := env w; ioCount := ioCount w; out := out w |}.

Definition set_nextBeepAt (v : Z) (w : World) : World :=
  {| state := state w; anger := anger w; enteredAt := enteredAt w;
     nextBlinkAt := nextBlinkAt w; nextBeepAt := v;
     angryRedOn := angryRedOn w; rngState := rngState w; tilt := tilt w;
     btn_stable := btn_stable w; btn_lastRaw := btn_lastRaw w;
     btn_changedAt := btn_changedAt w; holdAt := holdAt w;
     env := env w; ioCount := ioCount w; out := out w |}.

Definition set_angryRedOn (v : bool) (w : World) : World :=
  {| state := state w; anger := anger w; enteredAt := enteredAt w;
     nextBlinkAt := nextBlinkAt w; nextBeepAt := nextBeepAt w;
     angryRedOn := v; rngState := rngState w; tilt := tilt w;
     btn_stable := btn_stable w; btn_lastRaw := btn_lastRaw w;
     btn_changedAt := btn_changedAt w; holdAt := holdAt w;
     env := env w; ioCount := ioCount w; out := out w |}.

Definition set_rngState (v : Z) (w : World) : World :=
  {| state := state w; anger := anger w; enteredAt := enteredAt w;
     nextBlinkAt := nextBlinkAt w; nextBeepAt := nextBeepAt w;
     angryRedOn := angryRedOn w; rngState := v; tilt := tilt w;
     btn_stable := btn_stable w; btn_lastRaw := btn_lastRaw w;
     btn_changedAt := btn_changedAt w; holdAt := holdAt w;
     env := env w; ioCount := ioCount w; out := out w |}.

Definition set_tilt (v : TiltEdge) (w : World) : World :=
  {| state := state w; anger := anger w; enteredAt := enteredAt w;
     nextBlinkAt := nextBlinkAt w; nextBeepAt := nextBeepAt w;
     angryRedOn := angryRedOn w; rngState := rngState w; tilt := v;
     btn_stable := btn_stable w; btn_lastRaw := btn_lastRaw w;
     btn_changedAt := btn_changedAt w; holdAt := holdAt w;
     env := env w; ioCount := ioCount w; out := out w |}.

Definition set_btn (st lr : bool) (ca : Z) (w : World) : World :=
  {| state := state w; anger := anger w; enteredAt := enteredAt w;
     nextBlinkAt := nextBlinkAt w; nextBeepAt := nextBeepAt w;
     angryRedOn := angryRedOn w; rngState := rngState w; tilt := tilt w;
     btn_stable := st; btn_lastRaw := lr;
     btn_changedAt := ca; holdAt := holdAt w;
     env := env w; ioCount := ioCount w; out := out w |}.

Definition set_holdAt (v : Z) (w : World) : World :=
  {| state := state w; anger := anger w; enteredAt := enteredAt w;
     nextBlinkAt := nextBlinkAt w; nextBeepAt := nextBeepAt w;
     angryRedOn := angryRedOn w; rngState := rngState w; tilt := tilt w;
     btn_stable := btn_stable w; btn_lastRaw := btn_lastRaw w;
     btn_changedAt := btn_changedAt w; holdAt := v;
     env := env w; ioCount := ioCount w; out := out w |}.

Definition set_ioCount (v : nat) (w : World) : World :=
  {| state := state w; anger := anger w; enteredAt := enteredAt w;
     nextBlinkAt := nextBlinkAt w; nextBeepAt := nextBeepAt w;
     angryRedOn := angryRedOn w; rngState := rngState w; tilt := tilt w;
     btn_stable := btn_stable w; btn_lastRaw := btn_lastRaw w;
     btn_changedAt := btn_changedAt w; holdAt := holdAt w;
     env := env w; ioCount := v; out := out w |}.

Definition set_out (v : list Effect) (w : World) : World :=
  {| state := state w; anger := anger w; enteredAt := enteredAt w;
     nextBlinkAt := nextBlinkAt w; nextBeepAt := nextBeepAt w;
     angryRedOn := angryRedOn w; rngState := rngState w; tilt := tilt w;
     btn_stable := btn_stable w; btn_lastRaw := btn_lastRaw w;
     btn_changedAt := btn_changedAt w; holdAt := holdAt w;
     env := env w; ioCount := ioCount w; out := v |}.

(** ** The state monad of the sketch *)

Definition M (A : Type) : Type := World -> A * World.

Definition ret {A : Type} (a : A) : M A := fun w => (a, w).

Definition bind {A B : Type} (m : M A) (f : A -> M B) : M B :=
  fun w => let (a, w') := m w in f a w'.

Notation "x <- c1 ;; c2" := (bind c1 (fun x => c2))
  (at level 61, c1 at next level, right associativity).
Notation "c1 ;; c2" := (bind c1 (fun _ => c2))
  (at level 61, right associativity).
Notation "' pat <- c1 ;; c2" :=
  (bind c1 (fun x => match x with pat => c2 end))
  (at level 61, pat pattern, c1 at next level, right associativity).

Definition get {A : Type} (f : World -> A) : M A := fun w => (f w, w).
Definition modify (f : World -> World) : M unit := fun w => (tt, f w).
Definition when (c : bool) (m : M unit) : M unit := if c then m else ret tt.

(** The world a computation leaves behind, and the value it returns. *)
Definition exec {A : Type} (m : M A) (w : World) : World := snd (m w).
Definition eval {A : Type} (m : M A) (w : World) : A := fst (m w).

(** ** Hardware primitives (the Arduino core, as the sketch uses it) *)

Definition emit (e : Effect) : M unit :=
  modify (fun w => set_out (out w ++ [e]) w).

(** A hardware read consumes one sample of the environment. *)
Definition sample {A : Type} (f : Sample -> A) : M A :=
  fun w => (f (env w (ioCount w)), set_ioCount (S (ioCount w)) w).

Definition millis : M Z := sample (fun s => u32 (s_millis s)).
Definition digitalRead (pin : Z) : M bool := sample (fun s => s_digital s pin).
Definition analogRead (pin : Z) : M Z := sample (fun s => s_analog s pin).

Definition digitalWrite (pin : Z) (v : bool) : M unit := emit (DigitalWrite pin v).
Definition tone (pin hz : Z) (dur : option Z) : M unit := emit (Tone pin hz dur).
Definition noTone (pin : Z) : M unit := emit (NoTone pin).
Definition pinMode (pin : Z) (m : PinModeKind) : M unit := emit (PinMode pin m).

(** [Print::print] of an unsigned number: decimal digits. *)
Definition dec (n : Z) : string := NilZero.string_of_uint (N.to_uint (Z.to_N n)).

(** [long map(long x, long in_min, long in_max, long out_min, long out_max)]
    of the Arduino core: integer arithmetic on [long], truncating division. *)
Definition map_long (x in_min in_max out_min out_max : Z) : Z :=
  i32 (Z.quot (i32 (i32 (x - in_min) * i32 (out_max - out_min)))
              (i32 (in_max - in_min)) + out_min).

(** ** The sketch *)

(** [elapsed(t0, ms)]: unsigned subtraction, so the comparison survives the
    wrap of [millis()]. *)
Definition elapsed (t0 ms : Z) : M bool :=
  now <- millis ;;
  ret (ms <=? u32 (now - t0)).

Definition sName (s : State) : string :=
  match s with
  | IDLE => "IDLE"
  | ALERT => "ALERT"
  | ANGRY => "ANGRY"
  | COOLDOWN => "COOLDOWN"
  | REWARD => "REWARD"
  | LOCKED => "LOCKED"
  end.

Definition leds (r y g : bool) : M unit :=
  digitalWrite PIN_LED_R r ;;
  digitalWrite PIN_LED_Y y ;;
  digitalWrite PIN_LED_G g.

Definition showBaseLEDs : M unit :=
  s <- get state ;;
  match s with
  | IDLE => leds false false true
  | ALERT => leds false true false
  | COOLDOWN => leds false true false
  | REWARD => leds false true true
  | ANGRY => leds true false false
  | LOCKED => leds true false false
  end.

Definition stopSound : M unit := noTone PIN_PIEZO.

Definition printStateMsg (msg : string) : M unit :=
  s <- get state ;;
  emit (SerialPrint "[") ;;
  emit (SerialPrint (sName s)) ;;
  emit (SerialPrint "] ") ;;
  emit (SerialPrintln msg).

Definition printStatLine (patienceMs : Z) : M unit :=
  s <- get state ;;
  a <- get anger ;;
  emit (SerialPrint "@STAT state=") ;;
  emit (SerialPrint (sName s)) ;;
  emit (SerialPrint " anger=") ;;
  emit (SerialPrint (dec a)) ;;
  emit (SerialPrint " patienceMs=") ;;
  emit (SerialPrintln (dec patienceMs)).

(** One round of xorshift32 on a [uint32_t]. *)
Definition xorshift32 (x : Z) : Z :=
  let x1 := Z.lxor x (u32 (Z.shiftl x 13)) in
  let x2 := Z.lxor x1 (Z.shiftr x1 17) in
  Z.lxor x2 (u32 (Z.shiftl x2 5)).

Definition rng : M Z :=
  x <- get rngState ;;
  modify (set_rngState (xorshift32 x)) ;;
  get rngState.

Definition pick3 (a b c : string) : M string :=
  r <- rng ;;
  ret (match r mod 3 with 0 => a | 1 => b | _ => c end).

Definition pick4 (a b c d : string) : M string :=
  r <- rng ;;
  ret (match r mod 4 with 0 => a | 1 => b | 2 => c | _ => d end).

(** The eight bytes that stand between "Nice work" and "your patience" in
    the source file. *)
Definition dash_bytes : string :=
  string_of_list_ascii
    (List.map (fun n => ascii_of_nat n) [195; 162; 226; 130; 172; 226; 128; 157]%nat).

Definition compliment : M string :=
  pick4
    ("Nice work " ++ dash_bytes ++ " your patience is strong.")
    "You did great. Thanks for staying calm."
    "That was impressive self-control."
    "You're doing awesome. Keep it up.".

(** *** TiltEdge *)

Definition rawActive : M bool :=
  raw <- digitalRead PIN_TILT ;;
  let active := Bool.eqb raw LOW in
  ret (if TILT_INVERTED then negb active else active).

Definition reset : M unit :=
  modify (fun w => set_tilt {| lastRawAct := lastRawAct (tilt w);
                               changedAt := changedAt (tilt w);
                               armed := false;
                               inactiveSince := 0 |} w) ;;
  r <- rawActive ;;
  now <- millis ;;
  modify (fun w => set_tilt {| lastRawAct := r;
                               changedAt := now;
                               armed := armed (tilt w);
                               inactiveSince := inactiveSince (tilt w) |} w).

Definition set_armed (v : bool) (w : World) : World :=
  set_tilt {| lastRawAct := lastRawAct (tilt w); changedAt := changedAt (tilt w);
              armed := v; inactiveSince := inactiveSince (tilt w) |} w.

Definition set_inactiveSince (v : Z) (w : World) : World :=
  set_tilt {| lastRawAct := lastRawAct (tilt w); changedAt := changedAt (tilt w);
              armed := armed (tilt w); inactiveSince := v |} w.

Definition needDb (currentState : State) : Z :=
  if State_eqb currentState IDLE then TILT_DB_IDLE_MS else TILT_DB_OTHER_MS.

Definition event (currentState : State) : M bool :=
  rawAct <- rawActive ;;
  last <- get (fun w => lastRawAct (tilt w)) ;;
  when (negb (Bool.eqb rawAct last))
       (now <- millis ;;
        modify (fun w => set_tilt {| lastRawAct := rawAct;
                                     changedAt := now;
                                     armed := armed (tilt w);
                                     inactiveSince := inactiveSince (tilt w) |} w)) ;;
  ca <- get (fun w => changedAt (tilt w)) ;;
  stable <- elapsed ca (needDb currentState) ;;
  if negb stable then ret false
  else
    (if negb rawAct then
       since <- get (fun w => inactiveSince (tilt w)) ;;
       when (since =? 0) (now <- millis ;; modify (set_inactiveSince now)) ;;
       a <- get (fun w => armed (tilt w)) ;;
       (if negb a then
          since' <- get (fun w => inactiveSince (tilt w)) ;;
          e <- elapsed since' TILT_REARM_MS ;;
          when e (modify (set_armed true))
        else ret tt)
     else modify (set_inactiveSince 0)) ;;
    a <- get (fun w => armed (tilt w)) ;;
    if a && rawAct then
      modify (set_armed false) ;;
      ret true
    else ret false.

(** *** Button *)

Definition buttonPressEvent : M bool :=
  raw <- digitalRead PIN_BUTTON ;;
  lastRaw <- get btn_lastRaw ;;
  when (negb (Bool.eqb raw lastRaw))
       (now <- millis ;;
        modify (fun w => set_btn (btn_stable w) raw now w)) ;;
  ca <- get btn_changedAt ;;
  e <- elapsed ca 25 ;;
  stable <- get btn_stable ;;
  if e && negb (Bool.eqb raw stable) then
    modify (fun w => set_btn raw (btn_lastRaw w) (btn_changedAt w) w) ;;
    ret (Bool.eqb raw LOW)
  else ret false.

Definition buttonHeld : M bool :=
  raw <- digitalRead PIN_BUTTON ;;
  ret (Bool.eqb raw LOW).

(** *** State entry *)

Definition enter (next : State) (msg : string)
                 (beepHz beepDur patienceMs : Z) : M unit :=
  when (negb (State_eqb next LOCKED)) stopSound ;;
  modify (set_state next) ;;
  now <- millis ;;
  modify (set_enteredAt now) ;;
  reset ;;
  modify (set_angryRedOn true) ;;
  now1 <- millis ;;
  modify (set_nextBlinkAt now1) ;;
  now2 <- millis ;;
  modify (set_nextBeepAt now2) ;;
  showBaseLEDs ;;
  (if State_eqb next LOCKED then
     leds true false false ;;
     tone PIN_PIEZO LOCKED_TONE_HZ None
   else if 0 <? beepHz then
     tone PIN_PIEZO beepHz (Some beepDur)
   else ret tt) ;;
  printStateMsg msg ;;
  printStatLine patienceMs.

(** *** Effects *)

Definition angryEffectsTick : M unit :=
  now <- millis ;;
  blinkAt <- get nextBlinkAt ;;
  when (blinkAt <=? now)
       (now1 <- millis ;;
        modify (set_nextBlinkAt (u32 (now1 + ANGRY_BLINK_MS))) ;;
        modify (fun w => set_angryRedOn (negb (angryRedOn w)) w) ;;
        r <- get angryRedOn ;;
        digitalWrite PIN_LED_R r) ;;
  now2 <- millis ;;
  beepAt <- get nextBeepAt ;;
  when (beepAt <=? now2)
       (now3 <- millis ;;
        modify (set_nextBeepAt (u32 (now3 + ANGRY_BEEP_MS))) ;;
        tone PIN_PIEZO ANGRY_BEEP_HZ (Some ANGRY_BEEP_DUR_MS)).

(** *** setup *)

Definition setup : M unit :=
  emit (SerialBegin 9600) ;;
  pinMode PIN_BUTTON INPUT_PULLUP ;;
  pinMode PIN_TILT INPUT_PULLUP ;;
  pinMode PIN_PIEZO OUTPUT ;;
  pinMode PIN_LED_R OUTPUT ;;
  pinMode PIN_LED_Y OUTPUT ;;
  pinMode PIN_LED_G OUTPUT ;;
  leds false false false ;;
  a1 <- analogRead PIN_POT ;;
  modify (fun w => set_rngState (Z.lxor (rngState w) (u32 (Z.shiftl (u32 a1) 16))) w) ;;
  a2 <- analogRead PIN_POT ;;
  modify (fun w => set_rngState (Z.lxor (rngState w) (u32 a2)) w) ;;
  modify (set_anger 0) ;;
  enter IDLE "stillness acknowledged." 880 70 0.

(** *** loop *)

(** [if (anger < MAX_ANGER) anger++;] *)
Definition bumpAnger : M unit :=
  a <- get anger ;;
  when (a <? MAX_ANGER) (modify (set_anger (u8 (a + 1)))).

(** The three inputs of a tick: the patience window mapped from the pot,
    the tilt event and the button-press event. *)
Definition loop_inputs : M (Z * bool * bool) :=
  pot <- analogRead PIN_POT ;;
  let patienceMs := u32 (map_long pot 0 1023 IDLE_REWARD_MIN_MS IDLE_REWARD_MAX_MS) in
  s <- get state ;;
  t <- event s ;;
  p <- buttonPressEvent ;;
  ret (patienceMs, t, p).

(** The two unconditional per-state effects that precede the switch. *)
Definition loop_effects : M unit :=
  s <- get state ;;
  when (State_eqb s ANGRY) angryEffectsTick ;;
  s' <- get state ;;
  when (State_eqb s' LOCKED) (leds true false false).

(** The [switch (state)] of [loop]. *)
Definition loop_switch (patienceMs : Z) (t p : bool) : M unit :=
  s <- get state ;;
  ea <- get enteredAt ;;
  match s with
  | IDLE =>
      if t then
        m <- pick3 "careful." "i felt that." "easy." ;;
        enter ALERT m 988 60 patienceMs
      else
        e <- elapsed ea patienceMs ;;
        when e (m <- compliment ;; enter REWARD m 1047 60 patienceMs)
  | ALERT =>
      if t then
        bumpAnger ;;
        m <- pick3 "wrong move." "again? unfortunate." "you insist." ;;
        enter ANGRY m 220 90 patienceMs
      else if p then
        m <- pick3 "noted." "acknowledged." "good." ;;
        enter IDLE m 880 50 patienceMs
      else
        e <- elapsed ea ALERT_TIMEOUT_MS ;;
        when e (m <- pick3 "stand down." "resetting." "idle." ;;
                enter IDLE m 880 50 patienceMs)
  | ANGRY =>
      when t (bumpAnger ;;
              m <- pick3 "stop." "enough." "do not." ;;
              printStateMsg m) ;;
      a <- get anger ;;
      lock <- (if MAX_ANGER <=? a then elapsed ea 1200 else ret false) ;;
      if lock then
        m <- pick3 "access revoked." "you are done." "locked." ;;
        enter LOCKED m 0 0 patienceMs
      else
        e <- elapsed ea ANGRY_CALM_MS ;;
        when e (a' <- get anger ;;
                when (negb (a' =? 0)) (modify (set_anger (u8 (a' - 1)))) ;;
                m <- pick3 "cool down." "steady." "watch yourself." ;;
                enter COOLDOWN m 660 70 patienceMs)
  | COOLDOWN =>
      if t then
        bumpAnger ;;
        m <- pick3 "no." "not again." "wrong." ;;
        enter ANGRY m 220 90 patienceMs
      else
        e <- elapsed ea COOLDOWN_MS ;;
        when e (m <- pick3 "returning." "idle." "reset." ;;
                enter IDLE m 880 50 patienceMs)
  | REWARD =>
      if t then
        m <- pick3 "easy." "careful." "i noticed." ;;
        enter ALERT m 988 60 patienceMs
      else
        e <- elapsed ea REWARD_MS ;;
        when e (m <- pick3 "cycle complete." "done." "idle." ;;
                enter IDLE m 880 50 patienceMs)
  | LOCKED =>
      held <- buttonHeld ;;
      if held then
        h <- get holdAt ;;
        when (h =? 0) (now <- millis ;; modify (set_holdAt now)) ;;
        h' <- get holdAt ;;
        e <- elapsed h' 2000 ;;
        when e (modify (set_holdAt 0) ;;
                modify (set_anger 0) ;;
                m <- pick3 "mercy granted." "one more chance." "reset." ;;
                enter IDLE m 988 70 patienceMs)
      else modify (set_holdAt 0)
  end.

Definition loop : M unit :=
  ea <- get enteredAt ;;
  live <- elapsed ea MIN_STATE_MS ;;
  if negb live then ret tt
  else
    '(patienceMs, t, p) <- loop_inputs ;;
    loop_effects ;;
    loop_switch patienceMs t p.

(** The values of the globals and statics before [setup] runs. *)
Definition power_on (e : nat -> Sample) : World :=
  {| state := IDLE; anger := 0; enteredAt := 0;
     nextBlinkAt := 0; nextBeepAt := 0; angryRedOn := true;
     rngState := 2779096485 (* 0xA5A5A5A5 *);
     tilt := {| lastRawAct := false; changedAt := 0; armed := true; inactiveSince := 0 |};
     btn_stable := HIGH; btn_lastRaw := HIGH; btn_changedAt := 0;
     holdAt := 0;
     env := e; ioCount := 0%nat; out := [] |}.

Definition boot (e : nat -> Sample) : World := exec setup (power_on e).

(** [n] passes of [loop]. *)
Fixpoint run (n : nat) (w : World) : World :=
  match n with
  | O => w
  | S k => run k (exec loop w)
  end.

(** The states the program can be in between two passes of [loop]. *)
Inductive Reachable : World -> Prop :=
| Reachable_boot : forall e, Reachable (boot e)
| Reachable_loop : forall w, Reachable w -> Reachable (exec loop w).

(** ** What a run is observed through *)

(** The characters the effect log puts on the serial line; [println] ends
    its text with CR LF. *)
Definition crlf : string := String "013"%char (String "010"%char EmptyString).

Fixpoint serial_of (l : list Effect) : string :=
  match l with
  | [] => ""
  | SerialPrint s :: r => s ++ serial_of r
  | SerialPrintln s :: r => s ++ crlf ++ serial_of r
  | _ :: r => serial_of r
  end.

(** The ten writes of [printStateMsg msg; printStatLine pm] in state [st]
    with anger [a], and the two lines they put on the wire. *)
Definition entry_effects (st : State) (msg : string) (a pm : Z) : list Effect :=
  [ SerialPrint "["; SerialPrint (sName st); SerialPrint "] "; SerialPrintln msg;
    SerialPrint "@STAT state="; SerialPrint (sName st);
    SerialPrint " anger="; SerialPrint (dec a);
    SerialPrint " patienceMs="; SerialPrintln (dec pm) ].

Definition entry_text (st : State) (msg : string) (a pm : Z) : string :=
  "[" ++ sName st ++ "] " ++ msg ++ crlf ++
  "@STAT state=" ++ sName st ++ " anger=" ++ dec a ++
  " patienceMs=" ++ dec pm ++ crlf.

(** The human-readable line alone, as [printStateMsg] writes it. *)
Definition msg_text (st : State) (msg : string) : string :=
  "[" ++ sName st ++ "] " ++ msg ++ crlf.

(** What [millis()] returns at the [k]-th hardware read. *)
Definition clock (w : World) (k : nat) : Z := u32 (s_millis (env w k)).

(** Every read of the clock from now on returns [now]: the tick that
    starts in [w] sees one single time. *)
Definition steady (w : World) (now : Z) : Prop :=
  forall k, (ioCount w <= k)%nat -> clock w k = now.

(** The pieces of one pass of [loop], named so that statements can refer
    to them: the guard, the world after the guard's clock read, the
    inputs polled, and the world the [switch] starts from. *)
Definition live (w : World) : bool := eval (elapsed (enteredAt w) MIN_STATE_MS) w.
Definition after_guard (w : World) : World := exec (elapsed (enteredAt w) MIN_STATE_MS) w.
Definition tick_inputs (w : World) : Z * bool * bool := eval loop_inputs (after_guard w).
Definition patienceOf (w : World) : Z := fst (fst (tick_inputs w)).
Definition tiltFired (w : World) : bool := live w && snd (fst (tick_inputs w)).
Definition pressFired (w : World) : bool := live w && snd (tick_inputs w).
Definition pre_switch (w : World) : World :=
  exec loop_effects (exec loop_inputs (after_guard w)).
(** The level [buttonHeld()] sees in the LOCKED branch of this pass. *)
Definition heldSeen (w : World) : bool := live w && eval buttonHeld (pre_switch w).

(** The anger level once the tilt-driven increment of this pass is applied. *)
Definition bumped (w : World) : Z :=
  if tiltFired w && (anger w <? MAX_ANGER) then anger w + 1 else anger w.

(** Weakest precondition of a computation of the sketch. *)
Definition wp {A : Type} (m : M A) (w : World) (Q : A -> World -> Prop) : Prop :=
  Q (eval m w) (exec m w).

(** [w'] differs from [w] only in what the input filters and the effect
    scheduler own: nothing of the state machine proper has moved, and
    nothing was written to the serial line. *)
Definition Quiet (w w' : World) : Prop :=
  state w' = state w /\ anger w' = anger w /\ enteredAt w' = enteredAt w /\
  holdAt w' = holdAt w /\ rngState w' = rngState w /\ env w' = env w /\
  (ioCount w <= ioCount w')%nat /\
  exists l, out w' = (out w ++ l)%list /\ serial_of l = "".

(** What [enter next msg _ _ pm] leaves behind when started in [w]. *)
Definition Entered (next : State) (msg : string) (pm : Z) (w w' : World) : Prop :=
  state w' = next /\ anger w' = anger w /\
  enteredAt w' = clock w (ioCount w) /\
  holdAt w' = holdAt w /\ rngState w' = rngState w /\ env w' = env w /\
  ioCount w' = (ioCount w + 5)%nat /\
  tilt w' = {| lastRawAct := s_digital (env w (ioCount w + 1)%nat) PIN_TILT;
               changedAt := clock w (ioCount w + 2)%nat;
               armed := false; inactiveSince := 0 |} /\
  exists pre, out w' = (out w ++ pre ++ entry_effects next msg (anger w) pm)%list /\
              serial_of pre = "".

(** The invariant of the anger counter. *)
Definition AngerInv (w : World) : Prop :=
  0 <= anger w <= MAX_ANGER /\
  (state w = ANGRY -> 1 <= anger w) /\
  (state w = LOCKED -> anger w = MAX_ANGER) /\
  (state w <> LOCKED -> holdAt w = 0).


(** ** Concrete environments and worlds, used to exercise the theorems *)

(** Time stands still at [t]; the tilt pin, the button pin and the pot
    show fixed values. *)
Definition frozen_env (t : Z) (tiltPin buttonPin : bool) (pot : Z) : nat -> Sample :=
  fun _ => {| s_millis := t;
              s_digital := fun pin => if pin =? PIN_TILT then tiltPin else buttonPin;
              s_analog := fun _ => pot |}.

(** Nothing moves: the clock stands at 0, the sensor is at rest, the
    button is released, the pot is at mid-scale. *)
Definition calm_env : nat -> Sample := frozen_env 0 LOW HIGH 512.

(** The clock advances 50 ms per hardware read, the device is shaken in
    bursts, and from the 700th read on the button is held down. *)
Definition busy_env : nat -> Sample :=
  fun k => {| s_millis := 50 * Z.of_nat k;
              s_digital := fun pin => if pin =? PIN_TILT then Nat.even (k / 40)
                                      else Nat.ltb k 700;
              s_analog := fun _ => 512 |}.

(** A world in state [s] with the given anger, entry and hold-start
    timestamps, a freshly reset detector, and nothing written yet. *)
Definition world_at (s : State) (a ea hold : Z) (e : nat -> Sample) : World :=
  {| state := s; anger := a; enteredAt := ea;
     nextBlinkAt := 0; nextBeepAt := 0; angryRedOn := true;
     rngState := 2779096485;
     tilt := {| lastRawAct := false; changedAt := 0; armed := false; inactiveSince := 0 |};
     btn_stable := HIGH; btn_lastRaw := HIGH; btn_changedAt := 0;
     holdAt := hold; env := e; ioCount := 0%nat; out := [] |}.

(** ANGRY for 3000 ms with anger 3. *)
Definition angry_world : World :=
  world_at ANGRY 3 1000 0 (frozen_env 4000 LOW HIGH 512).

(** LOCKED, the button seen held since 1000 and still held at 3500. *)
Definition locked_world : World :=
  world_at LOCKED 3 0 1000 (frozen_env 3500 LOW LOW 512).

(** IDLE and undisturbed for 13000 ms, pot at mid-scale. *)
Definition idle_world : World :=
  world_at IDLE 0 0 0 (frozen_env 13000 LOW HIGH 512).

(** IDLE, the detector armed and the sensor active since time 0. *)
Definition armed_world : World :=
  set_tilt {| lastRawAct := true; changedAt := 0; armed := true; inactiveSince := 0 |}
           (world_at IDLE 0 0 0 (frozen_env 1000 HIGH HIGH 512)).

(** The log ends with the two lines of a state entry, and the patience
    they report lies in the range of the pot mapping. *)
Definition entry_reports_patience (l : list Effect) : Prop :=
  exists pre st msg a pm,
    l = (pre ++ entry_effects st msg a pm)%list /\ 5000 <= pm <= 20000.

(** ** The tilt detector on its own *)

(** What happens to the detector between two moments: it is polled (as
    [loop] does once per live pass), it is reset (as [enter] does), or the
    rest of the sketch makes [n] hardware reads of its own. *)
Inductive TiltOp : Type :=
| OpPoll (currentState : State)
| OpReset
| OpOther (n : nat).

Definition tilt_op (o : TiltOp) : M bool :=
  match o with
  | OpPoll s => event s
  | OpReset => reset ;; ret false
  | OpOther n => modify (fun w => set_ioCount (n + ioCount w) w) ;; ret false
  end.

Fixpoint tilt_ops (os : list TiltOp) : M (list bool) :=
  match os with
  | [] => ret []
  | o :: r => b <- tilt_op o ;; bs <- tilt_ops r ;; ret (b :: bs)
  end.

(** How many events a run of the detector fired. *)
Definition fires (bs : list bool) : nat := count_occ bool_dec bs true.

(** From now on the millisecond counter runs forward inside a window of
    less than TILT_REARM_MS starting at [T].  The counter is the raw one,
    before [millis()] wraps it to 32 bits, so a window may straddle the
    wrap. *)
Definition Window (T : Z) (w : World) : Prop :=
  forall j k, (ioCount w <= j)%nat -> (j <= k)%nat ->
    T <= s_millis (env w j) /\
    s_millis (env w j) <= s_millis (env w k) /\
    s_millis (env w k) < T + TILT_REARM_MS.

(** The detector is disarmed and any pending inactivity timestamp was
    taken inside the window. *)
Definition Disarmed (T : Z) (w : World) : Prop :=
  armed (tilt w) = false /\
  (inactiveSince (tilt w) = 0 \/
   exists m, inactiveSince (tilt w) = u32 m /\ T <= m /\
             forall k, (ioCount w <= k)%nat -> m <= s_millis (env w k)).

(** The level a poll started in [w] reads on the tilt pin; the sensor is
    wired so that HIGH means active. *)
Definition tilt_raw (w : World) : bool := s_digital (env w (ioCount w)) PIN_TILT.

(** Some clock read made by the poll that led from [w] to [w'] satisfies [P]. *)
Definition read_in (w w' : World) (P : Z -> Prop) : Prop :=
  exists j, (ioCount w < j < ioCount w')%nat /\ P (clock w j).

(** One poll of the detector, started in [w] for state [s], returning [r]
    and leaving [w']. *)
Definition Polled (s : State) (w : World) (r : bool) (w' : World) : Prop :=
  env w' = env w /\ (ioCount w < ioCount w')%nat /\
  lastRawAct (tilt w') = tilt_raw w /\
  (* firing *)
  (r = true ->
   armed (tilt w) = true /\ tilt_raw w = true /\
   armed (tilt w') = false /\ inactiveSince (tilt w') = 0 /\
   read_in w w' (fun c => needDb s <= u32 (c - changedAt (tilt w')))) /\
  (armed (tilt w) = false -> r = false) /\
  (* re-arming *)
  (armed (tilt w) = false -> armed (tilt w') = true ->
   tilt_raw w = false /\
   read_in w w' (fun c => needDb s <= u32 (c - changedAt (tilt w'))) /\
   exists j', (ioCount w < j' < ioCount w')%nat /\
     TILT_REARM_MS <= u32 (clock w j' - inactiveSince (tilt w')) /\
     ((inactiveSince (tilt w) <> 0 /\
       inactiveSince (tilt w') = inactiveSince (tilt w)) \/
      (inactiveSince (tilt w) = 0 /\
       exists j, (ioCount w < j < j')%nat /\
                 inactiveSince (tilt w') = clock w j))) /\
  (* the inactivity timestamp *)
  (inactiveSince (tilt w') <> inactiveSince (tilt w) ->
   (tilt_raw w = true /\ inactiveSince (tilt w') = 0) \/
   (tilt_raw w = false /\ inactiveSince (tilt w) = 0 /\
    read_in w w' (fun c => inactiveSince (tilt w') = c))) /\
  (tilt_raw w = true ->
   inactiveSince (tilt w') = 0 \/
   (r = false /\ armed (tilt w') = armed (tilt w) /\
    inactiveSince (tilt w') = inactiveSince (tilt w) /\
    read_in w w' (fun c => u32 (c - changedAt (tilt w')) < needDb s))) /\
  (* debounce *)
  (r = true \/ armed (tilt w') <> armed (tilt w) \/
   inactiveSince (tilt w') <> inactiveSince (tilt w) ->
   read_in w w' (fun c => needDb s <= u32 (c - changedAt (tilt w')))) /\
  changedAt (tilt w') =
    (if Bool.eqb (tilt_raw w) (lastRawAct (tilt w))
     then changedAt (tilt w) else clock w (S (ioCount w))).

(** The clock value at the [i]-th hardware read that the [switch] of the
    pass started in [w] makes (in ANGRY and IDLE read 0 is the clock read
    of the first dwell check; in LOCKED read 0 is the button level and the
    clock reads follow). *)
Definition switch_read (w : World) (i : nat) : Z :=
  clock w (i + ioCount (pre_switch w)).

(** ** Observing the lamps and the piezo in the effect log *)

(** The level a pin is left at by a log: its last [digitalWrite]. *)
Definition pin_after (pin : Z) (lv : option bool) (e : Effect) : option bool :=
  match e with
  | DigitalWrite p v => if p =? pin then Some v else lv
  | _ => lv
  end.

Definition pin_level (pin : Z) (l : list Effect) : option bool :=
  fold_left (pin_after pin) l None.

(** What the piezo was last told to do. *)
Inductive Sound : Type :=
| Silent
| OneShot (hz dur : Z)
| Continuous (hz : Z).

Definition sound_after (s : option Sound) (e : Effect) : option Sound :=
  match e with
  | Tone p hz (Some d) => if p =? PIN_PIEZO then Some (OneShot hz d) else s
  | Tone p hz None => if p =? PIN_PIEZO then Some (Continuous hz) else s
  | NoTone p => if p =? PIN_PIEZO then Some Silent else s
  | _ => s
  end.

Definition piezo (l : list Effect) : option Sound := fold_left sound_after l None.

(** Which lamps belong to a state; in ANGRY the red one blinks and shows
    [angryRedOn]. *)
Definition lampR (s : State) (redOn : bool) : bool :=
  match s with LOCKED => true | ANGRY => redOn | _ => false end.
Definition lampY (s : State) : bool :=
  match s with ALERT | COOLDOWN | REWARD => true | _ => false end.
Definition lampG (s : State) : bool :=
  match s with IDLE | REWARD => true | _ => false end.

(** The pot sample that the pass started in [w] reads. *)
Definition potOf (w : World) : Z := s_analog (env w (S (ioCount w))) PIN_POT.

(** ** The transition graph *)

(** The arrows of the [switch]: one per call of [enter] in [loop]. *)
Definition edge (a b : State) : bool :=
  match a, b with
  | IDLE, ALERT | IDLE, REWARD
  | ALERT, ANGRY | ALERT, IDLE
  | ANGRY, LOCKED | ANGRY, COOLDOWN
  | COOLDOWN, ANGRY | COOLDOWN, IDLE
  | REWARD, ALERT | REWARD, IDLE
  | LOCKED, IDLE => true
  | _, _ => false
  end.

(** ALERT since 10500 ms, nothing touched. *)
Definition alert_world : World :=
  world_at ALERT 1 0 0 (frozen_env 10500 LOW HIGH 512).

(** COOLDOWN since 10000 ms, nothing touched. *)
Definition cooldown_world : World :=
  world_at COOLDOWN 1 500 0 (frozen_env 10500 LOW HIGH 512).

(** REWARD since 8000 ms, nothing touched. *)
Definition reward_world : World :=
  world_at REWARD 0 500 0 (frozen_env 8500 LOW HIGH 512).

(** ANGRY at level 2 since 15000 ms, nothing touched. *)
Definition calming_world : World :=
  world_at ANGRY 2 1000 0 (frozen_env 16000 LOW HIGH 512).

(** ** What a state entry does, spelled out *)

Definition lamp_effects (r y g : bool) : list Effect :=
  [DigitalWrite PIN_LED_R r; DigitalWrite PIN_LED_Y y; DigitalWrite PIN_LED_G g].

(** Everything [enter next msg hz dur pm] writes when the anger level is
    [a], in order. *)
Definition enter_effects (next : State) (msg : string) (hz dur a pm : Z) : list Effect :=
  ((if State_eqb next LOCKED then [] else [NoTone PIN_PIEZO]) ++
   lamp_effects (lampR next true) (lampY next) (lampG next) ++
   (if State_eqb next LOCKED
    then lamp_effects true false false ++ [Tone PIN_PIEZO LOCKED_TONE_HZ None]
    else if 0 <? hz then [Tone PIN_PIEZO hz (Some dur)] else []) ++
   entry_effects next msg a pm)%list.

(** The world [enter next msg hz dur pm] leaves behind: five hardware
    reads (entry time, tilt level, detector time, blink time, beep time),
    the new state, a reset detector, the effect timers re-anchored, and
    the effects appended to the log. *)
Definition entered (next : State) (msg : string) (hz dur pm : Z) (w : World) : World :=
  set_out (out w ++ enter_effects next msg hz dur (anger w) pm)
    (set_nextBeepAt (clock w (4 + ioCount w))
      (set_nextBlinkAt (clock w (3 + ioCount w))
        (set_angryRedOn true
          (set_tilt {| lastRawAct := s_digital (env w (1 + ioCount w)) PIN_TILT;
                       changedAt := clock w (2 + ioCount w);
                       armed := false; inactiveSince := 0 |}
            (set_enteredAt (clock w (ioCount w))
              (set_state next (set_ioCount (5 + ioCount w) w))))))).

(** [angryEffectsTick], spelled out: is a blink due, is a beep due, and
    the world each half leaves behind. *)
Definition blinkDue (w : World) : bool := nextBlinkAt w <=? clock w (ioCount w).

Definition blinked (w : World) : World :=
  if blinkDue w
  then set_out (out w ++ [DigitalWrite PIN_LED_R (negb (angryRedOn w))])
         (set_angryRedOn (negb (angryRedOn w))
           (set_nextBlinkAt (u32 (clock w (1 + ioCount w) + ANGRY_BLINK_MS))
             (set_ioCount (2 + ioCount w) w)))
  else set_ioCount (1 + ioCount w) w.

Definition beepDue (w : World) : bool := nextBeepAt w <=? clock w (ioCount w).

Definition beeped (w : World) : World :=
  if beepDue w
  then set_out (out w ++ [Tone PIN_PIEZO ANGRY_BEEP_HZ (Some ANGRY_BEEP_DUR_MS)])
         (set_nextBeepAt (u32 (clock w (1 + ioCount w) + ANGRY_BEEP_MS))
           (set_ioCount (2 + ioCount w) w))
  else set_ioCount (1 + ioCount w) w.

(** The lamps show the state. *)
Definition LampInv (w : World) : Prop :=
  pin_level PIN_LED_R (out w) = Some (lampR (state w) (angryRedOn w)) /\
  pin_level PIN_LED_Y (out w) = Some (lampY (state w)) /\
  pin_level PIN_LED_G (out w) = Some (lampG (state w)).

(** The piezo drones in LOCKED and was last given a short beep elsewhere. *)
Definition PiezoInv (w : World) : Prop :=
  match state w with
  | LOCKED => piezo (out w) = Some (Continuous LOCKED_TONE_HZ)
  | _ => exists hz dur, piezo (out w) = Some (OneShot hz dur) /\
                        0 < hz /\ 0 < dur <= 90
  end.

(** [w'] differs from [w] at most in the two input filters and the read
    counter. *)
Definition Untouched (w w' : World) : Prop :=
  state w' = state w /\ anger w' = anger w /\ enteredAt w' = enteredAt w /\
  nextBlinkAt w' = nextBlinkAt w /\ nextBeepAt w' = nextBeepAt w /\
  angryRedOn w' = angryRedOn w /\ rngState w' = rngState w /\
  holdAt w' = holdAt w /\ env w' = env w /\ out w' = out w /\
  (ioCount w <= ioCount w')%nat.

(** ** Counting input events over passes *)

(** How many of the next [n] passes report a tilt event. *)
Fixpoint tilts (n : nat) (w : World) : nat :=
  match n with
  | O => O
  | S k => ((if tiltFired w then 1 else 0) + tilts k (exec loop w))%nat
  end.

(** How many of the next [n] passes report a button press. *)
Fixpoint presses (n : nat) (w : World) : nat :=
  match n with
  | O => O
  | S k => ((if pressFired w then 1 else 0) + presses k (exec loop w))%nat
  end.

(** From now on the button pin reads LOW (pressed) at every read. *)
Definition held_down (w : World) : Prop :=
  forall k, (ioCount w <= k)%nat -> s_digital (env w k) PIN_BUTTON = LOW.

(** The level a poll of the button started in [w] reads. *)
Definition btn_raw (w : World) : bool := s_digital (env w (ioCount w)) PIN_BUTTON.

(** ALERT with the button down and debounced since time 0. *)
Definition pressing_world : World :=
  set_btn HIGH LOW 0 (world_at ALERT 1 0 0 (frozen_env 1000 LOW LOW 512)).

(** ANGRY, a blink and a beep both due. *)
Definition blinking_world : World :=
  world_at ANGRY 1 0 0 (frozen_env 1000 LOW HIGH 512).

(** [w'] comes after [w] in the same environment, with the tilt detector
    either as it was or freshly reset. *)
Definition TiltKept (w w' : World) : Prop :=
  env w' = env w /\ (ioCount w <= ioCount w')%nat /\
  (tilt w' = tilt w \/
   (armed (tilt w') = false /\ inactiveSince (tilt w') = 0)).

(** [w'] comes after [w] in the same environment, with the statics of
    [buttonPressEvent] as they were. *)
Definition BtnKept (w w' : World) : Prop :=
  env w' = env w /\ (ioCount w <= ioCount w')%nat /\
  btn_stable w' = btn_stable w /\ btn_lastRaw w' = btn_lastRaw w /\
  btn_changedAt w' = btn_changedAt w.

(** From now on the tilt pin reads HIGH (active) at every read. *)
Definition held_tilted (w : World) : Prop :=
  forall k, (ioCount w <= k)%nat -> s_digital (env w k) PIN_TILT = HIGH.

(** The device lies tilted and nothing else happens; the clock runs 50 ms
    per hardware read. *)
Definition tilted_env : nat -> Sample :=
  fun k => {| s_millis := 50 * Z.of_nat k;
              s_digital := fun _ => HIGH;
              s_analog := fun _ => 512 |}.

(** IDLE entered 100 ms before the clock wrapped, seen 100 ms after. *)
Definition wrapped_world : World :=
  world_at IDLE 0 4294967196 0 (frozen_env 100 LOW HIGH 512).

(** As [idle_world], the pot one step further. *)
Definition idle_world' : World :=
  world_at IDLE 0 0 0 (frozen_env 13000 LOW HIGH 513).
(** ** Stepping through the monad *)

Arguments u32 : simpl never.
Arguments u8 : simpl never.
Arguments i32 : simpl never.
Arguments needDb : simpl never.
Arguments map_long : simpl never.
Arguments xorshift32 : simpl never.
Arguments dec : simpl never.
Arguments clock : simpl never.
Arguments live : simpl never.
Arguments after_guard : simpl never.
Arguments tick_inputs : simpl never.
Arguments patienceOf : simpl never.
Arguments tiltFired : simpl never.
Arguments pressFired : simpl never.
Arguments pre_switch : simpl never.
Arguments heldSeen : simpl never.
Arguments switch_read : simpl never.
Arguments bumped : simpl never.

Section WpRules.
Context {A : Type}.

Lemma wp_ret (a : A) w Q : Q a w -> wp (ret a) w Q.
Proof. exact (fun H => H). Qed.

Lemma wp_bind {B : Type} (m : M B) (f : B -> M A) w Q :
  wp m w (fun a w' => wp (f a) w' Q) -> wp (bind m f) w Q.
Proof. unfold wp, eval, exec, bind. destruct (m w). exact (fun H => H). Qed.

Lemma wp_get (f : World -> A) w Q : Q (f w) w -> wp (get f) w Q.
Proof. exact (fun H => H). Qed.

Lemma wp_sample (f : Sample -> A) w Q :
  Q (f (env w (ioCount w))) (set_ioCount (S (ioCount w)) w) -> wp (sample f) w Q.
Proof. exact (fun H => H). Qed.

Lemma wp_exec (m : M A) w (P : World -> Prop) :
  wp m w (fun _ w' => P w') -> P (exec m w).
Proof. exact (fun H => H). Qed.
End WpRules.

Lemma wp_modify (f : World -> World) w Q : Q tt (f w) -> wp (modify f) w Q.
Proof. exact (fun H => H). Qed.

Ltac wp_prim :=
  lazymatch goal with
  | |- wp (bind _ _) _ _ => apply wp_bind
  | |- wp (ret _) _ _ => apply wp_ret
  | |- wp (get _) _ _ => apply wp_get
  | |- wp (modify _) _ _ => apply wp_modify
  | |- wp (sample _) _ _ => apply wp_sample
  | |- wp (when _ _) _ _ => unfold when
  | |- wp (if ?c then _ else _) _ _ => destruct c eqn:?
  | |- wp millis _ _ => unfold millis
  | |- wp (digitalRead _) _ _ => unfold digitalRead
  | |- wp (analogRead _) _ _ => unfold analogRead
  | |- wp (elapsed _ _) _ _ => unfold elapsed
  | |- wp rawActive _ _ => unfold rawActive
  | |- wp (emit _) _ _ => unfold emit
  | |- wp (digitalWrite _ _) _ _ => unfold digitalWrite
  | |- wp (tone _ _ _) _ _ => unfold tone
  | |- wp (noTone _) _ _ => unfold noTone
  | |- wp stopSound _ _ => unfold stopSound
  | |- wp (leds _ _ _) _ _ => unfold leds
  | |- wp rng _ _ => unfold rng
  end.
Ltac wp_run := repeat (wp_prim; cbv beta; simpl).

(** ** The serial view of the log *)

Lemma append_assoc (a b c : string) : (a ++ b) ++ c = a ++ (b ++ c).
Proof. induction a; simpl; congruence. Qed.

Lemma append_nil_r (s : string) : s ++ "" = s.
Proof. induction s; simpl; congruence. Qed.

Lemma serial_of_app l1 l2 : serial_of (l1 ++ l2) = serial_of l1 ++ serial_of l2.
Proof.
  induction l1 as [|e l1 IH]; simpl; [reflexivity|].
  destruct e; simpl; rewrite ?IH; try reflexivity.
  - now rewrite append_assoc.
  - now rewrite append_assoc.
Qed.

Lemma serial_of_entry st msg a pm :
  serial_of (entry_effects st msg a pm) = entry_text st msg a pm.
Proof.
  unfold entry_effects, entry_text. simpl.
  repeat (rewrite ?append_assoc, ?append_nil_r; simpl).
  reflexivity.
Qed.

(** ** Quiet computations *)

Lemma Quiet_trans a b c : Quiet a b -> Quiet b c -> Quiet a c.
Proof.
  unfold Quiet.
  intros (H1 & H2 & H3 & H4 & H5 & H6 & H7 & l & H8 & H9)
         (K1 & K2 & K3 & K4 & K5 & K6 & K7 & l' & K8 & K9).
  repeat split; try congruence; try lia.
  exists (l ++ l')%list. split.
  - rewrite K8, H8. now rewrite app_assoc.
  - rewrite serial_of_app, H9, K9. reflexivity.
Qed.

Ltac quiet_done :=
  unfold Quiet; simpl; repeat split; try lia;
  first [ exists []; now rewrite app_nil_r
        | repeat rewrite <- app_assoc; eexists; split; [reflexivity | reflexivity] ].

Lemma event_quiet s w Q :
  (forall r w', Quiet w w' -> Q r w') -> wp (event s) w Q.
Proof.
  intros H. unfold event. wp_run. all: apply H; quiet_done.
Qed.

Lemma buttonPressEvent_quiet w Q :
  (forall r w', Quiet w w' -> Q r w') -> wp buttonPressEvent w Q.
Proof.
  intros H. unfold buttonPressEvent. wp_run. all: apply H; quiet_done.
Qed.

Lemma angryEffectsTick_quiet w Q :
  (forall w', Quiet w w' -> Q tt w') -> wp angryEffectsTick w Q.
Proof.
  intros H. unfold angryEffectsTick. wp_run. all: apply H; quiet_done.
Qed.

Lemma loop_effects_quiet w Q :
  (forall w', Quiet w w' -> Q tt w') -> wp loop_effects w Q.
Proof.
  intros H. unfold loop_effects.
  apply wp_bind, wp_get. cbv beta.
  apply wp_bind. unfold when at 1.
  destruct (State_eqb (state w) ANGRY).
  - apply angryEffectsTick_quiet. intros w1 H1.
    apply wp_bind, wp_get. cbv beta.
    destruct (State_eqb (state w1) LOCKED); wp_run.
    + apply H. eapply Quiet_trans; [exact H1|]. quiet_done.
    + apply H. exact H1.
  - wp_run; apply H; quiet_done.
Qed.

Lemma loop_inputs_quiet w Q :
  (forall r w', Quiet w w' -> Q r w') -> wp loop_inputs w Q.
Proof.
  intros H. unfold loop_inputs.
  apply wp_bind. unfold analogRead. apply wp_sample. cbv beta.
  apply wp_bind, wp_get. cbv beta.
  apply wp_bind, event_quiet. intros t w1 H1.
  apply wp_bind, buttonPressEvent_quiet. intros p w2 H2.
  apply wp_ret, H.
  eapply Quiet_trans; [|exact H2]. eapply Quiet_trans; [|exact H1]. quiet_done.
Qed.

Lemma after_guard_eq w : after_guard w = set_ioCount (S (ioCount w)) w.
Proof. reflexivity. Qed.

Lemma live_eq w :
  live w = (MIN_STATE_MS <=? u32 (clock w (ioCount w) - enteredAt w)).
Proof. reflexivity. Qed.

Lemma pre_switch_quiet w : Quiet w (pre_switch w).
Proof.
  unfold pre_switch.
  apply (wp_exec loop_effects (exec loop_inputs (after_guard w)) (fun w' => Quiet w w')).
  apply loop_effects_quiet. intros w2 H2.
  eapply Quiet_trans; [|exact H2].
  apply (wp_exec loop_inputs (after_guard w) (fun w' => Quiet w w')).
  apply loop_inputs_quiet. intros r w1 H1.
  eapply Quiet_trans; [|exact H1].
  rewrite after_guard_eq. quiet_done.
Qed.

(** One pass of [loop] is the guard, then the switch run on the polled
    inputs. *)
Lemma loop_unfold w :
  exec loop w =
  if live w
  then exec (loop_switch (patienceOf w) (tiltFired w) (pressFired w)) (pre_switch w)
  else after_guard w.
Proof.
  unfold loop, tiltFired, pressFired, patienceOf, pre_switch, tick_inputs, live, after_guard.
  unfold exec, eval, bind, get, elapsed, millis, sample, ret. simpl.
  destruct (MIN_STATE_MS <=? u32 (u32 (s_millis (env w (ioCount w))) - enteredAt w));
    simpl; [|reflexivity].
  destruct (loop_inputs (set_ioCount (S (ioCount w)) w)) as [[[pm t] p] w1]. simpl.
  destruct (loop_effects w1) as [u w2]. reflexivity.
Qed.

(** ** State entry, message picking *)

Arguments entry_effects : simpl never.

Lemma wp_print_pair msg pm w (Q : unit -> World -> Prop) :
  Q tt (set_out (out w ++ entry_effects (state w) msg (anger w) pm) w) ->
  wp (printStateMsg msg ;; printStatLine pm) w Q.
Proof.
  intros H. unfold printStateMsg, printStatLine. wp_run.
  repeat rewrite <- app_assoc. simpl. exact H.
Qed.

Ltac wp_enter_step :=
  lazymatch goal with
  | |- wp (bind (printStateMsg _) (fun _ => printStatLine _)) _ _ => apply wp_print_pair
  | |- wp reset _ _ => unfold reset
  | |- wp showBaseLEDs _ _ => unfold showBaseLEDs
  | |- wp (match ?s with IDLE => _ | _ => _ end) _ _ => destruct s eqn:?
  | _ => wp_prim
  end.

Lemma wp_enter next msg hz dur pm w (Q : unit -> World -> Prop) :
  (forall w', Entered next msg pm w w' -> Q tt w') ->
  wp (enter next msg hz dur pm) w Q.
Proof.
  intros H. unfold enter.
  destruct next; repeat (wp_enter_step; cbv beta; simpl); try discriminate.
  all: apply H; unfold Entered, clock; simpl;
    rewrite ?Nat.add_1_r, ?Nat.add_succ_r, ?Nat.add_0_r;
    repeat split;
    [ f_equal; destruct (s_digital _ _); reflexivity
    | eexists; split;
      [ rewrite (app_assoc (out w)); f_equal; repeat rewrite <- app_assoc; reflexivity
      | reflexivity ] ].
Qed.

Lemma wp_pick3 a b c w (Q : string -> World -> Prop) :
  (forall m, m = a \/ m = b \/ m = c ->
             Q m (set_rngState (xorshift32 (rngState w)) w)) ->
  wp (pick3 a b c) w Q.
Proof.
  intros H. unfold pick3. wp_run. apply H.
  destruct (xorshift32 (rngState w) mod 3) as [|[?|?|]|?]; auto.
Qed.

Lemma wp_pick4 a b c d w (Q : string -> World -> Prop) :
  (forall m, m = a \/ m = b \/ m = c \/ m = d ->
             Q m (set_rngState (xorshift32 (rngState w)) w)) ->
  wp (pick4 a b c d) w Q.
Proof.
  intros H. unfold pick4. wp_run. apply H.
  destruct (xorshift32 (rngState w) mod 4) as [|[[?|?|]|[?|?|]|]|?]; auto.
Qed.

Lemma wp_compliment w (Q : string -> World -> Prop) :
  (forall m, Q m (set_rngState (xorshift32 (rngState w)) w)) ->
  wp compliment w Q.
Proof. intros H. unfold compliment. apply wp_pick4. intros m _. apply H. Qed.

(** Symbolic execution of the [switch]: every call of [enter] is replaced
    by what it leaves behind. *)
Ltac wp_switch_step :=
  lazymatch goal with
  | |- wp (enter _ _ _ _ _) _ _ => apply wp_enter; intros ? ?
  | |- wp (pick3 _ _ _) _ _ => apply wp_pick3; intros ? ?
  | |- wp compliment _ _ => apply wp_compliment; intros ?
  | |- wp bumpAnger _ _ => unfold bumpAnger
  | |- wp buttonHeld _ _ => unfold buttonHeld
  | |- wp (printStateMsg _) _ _ => unfold printStateMsg
  | |- wp (pinMode _ _) _ _ => unfold pinMode
  | _ => wp_prim
  end.
Ltac wp_switch := repeat (wp_switch_step; cbv beta; simpl).

Ltac boolZ :=
  repeat match goal with
  | H : negb _ = true |- _ => apply negb_true_iff in H
  | H : negb _ = false |- _ => apply negb_false_iff in H
  | H : (_ <? _) = true |- _ => apply Z.ltb_lt in H
  | H : (_ <? _) = false |- _ => apply Z.ltb_ge in H
  | H : (_ <=? _) = true |- _ => apply Z.leb_le in H
  | H : (_ <=? _) = false |- _ => apply Z.leb_gt in H
  | H : (_ =? _) = true |- _ => apply Z.eqb_eq in H
  | H : (_ =? _) = false |- _ => apply Z.eqb_neq in H
  end.

Ltac use_entered :=
  repeat match goal with
  | H : Entered _ _ _ _ _ |- _ =>
      unfold Entered, clock in H; simpl in H;
      destruct H as (? & ? & ? & ? & ? & ? & ? & ? & ?)
  end.

Lemma u8_small z : 0 <= z < 256 -> u8 z = z.
Proof. intros H. unfold u8. apply Z.mod_small. lia. Qed.

Ltac drop_u8 :=
  repeat match goal with
  | H : context [u8 ?z] |- _ => rewrite (u8_small z) in H by lia
  | |- context [u8 ?z] => rewrite (u8_small z) by lia
  end.

Lemma u32_small z : 0 <= z < 2 ^ 32 -> u32 z = z.
Proof. intros H. unfold u32. apply Z.mod_small. lia. Qed.

Lemma u32_range z : 0 <= u32 z < 2 ^ 32.
Proof. unfold u32. apply Z.mod_pos_bound. lia. Qed.

(** Reasoning about one pass of [loop]: either the guard stops it, or the
    switch runs from a world in which the state machine has not moved. *)
Lemma loop_wp w (P : World -> Prop) :
  (live w = false -> P (after_guard w)) ->
  (live w = true ->
   forall w1, Quiet w w1 -> w1 = pre_switch w ->
     wp (loop_switch (patienceOf w) (tiltFired w) (pressFired w)) w1
        (fun _ w' => P w')) ->
  P (exec loop w).
Proof.
  intros Hskip Hlive. rewrite loop_unfold.
  destruct (live w) eqn:L; [|auto].
  apply (wp_exec (loop_switch (patienceOf w) (tiltFired w) (pressFired w))
                 (pre_switch w) P).
  apply Hlive; auto using pre_switch_quiet.
Qed.

(** Case analysis of one pass: the guard case first, then one case per
    path through the switch.  The pre-switch world is [w1]; its
    state-machine fields are rewritten back to those of [w]. *)
Ltac loop_cases w w1 :=
  apply loop_wp;
  [ intros ?; rewrite after_guard_eq; simpl
  | let L := fresh "L" in
    let Hq := fresh "Hq" in
    let Hw1 := fresh "Hw1" in
    intros L w1 Hq Hw1; unfold loop_switch;
    apply wp_bind, wp_get; cbv beta; apply wp_bind, wp_get; cbv beta;
    rewrite (proj1 Hq);
    let Hsw := fresh "Hsw" in
    destruct (state w) eqn:Hsw; wp_switch ].

(** Feed the known state to the implications of an invariant. *)
Ltac inst_inv :=
  repeat match goal with
  | H : @eq State ?a ?b -> _ |- _ =>
      first [ specialize (H eq_refl) | clear H ]
  | H : ?a <> ?b -> _ |- _ =>
      first [ specialize (H ltac:(discriminate)) | clear H ]
  end.

(** Express every state-machine field of the pre-switch world in terms of
    the world the pass started from. *)
Ltac back_to_start :=
  lazymatch goal with
  | Hq : Quiet _ _ |- _ =>
      let Hst := fresh "Hst" in let Han := fresh "Han" in
      let Hea := fresh "Hea" in let Hho := fresh "Hho" in
      let Hrn := fresh "Hrn" in let Hen := fresh "Hen" in
      let Hio := fresh "Hio" in let Hout := fresh "Hout" in
      destruct Hq as (Hst & Han & Hea & Hho & Hrn & Hen & Hio & Hout);
      rewrite ?Hst, ?Han, ?Hea, ?Hho, ?Hrn, ?Hen in *
  end.

Ltac settle :=
  use_entered; boolZ; unfold AngerInv, bumped, MAX_ANGER in *; simpl in *;
  back_to_start; inst_inv; drop_u8.

Lemma AngerInv_loop w : AngerInv w -> AngerInv (exec loop w).
Proof.
  intros (Ha & Hang & Hlk & Hh).
  loop_cases w w1; [unfold AngerInv; simpl; auto|..].
  all: settle.
  all: repeat split; intros; try congruence; try lia.
Qed.

(** ** Boot *)

Lemma setup_spec w :
  let a1 := s_analog (env w (ioCount w)) PIN_POT in
  let a2 := s_analog (env w (S (ioCount w))) PIN_POT in
  let w' := exec setup w in
  state w' = IDLE /\ anger w' = 0 /\ holdAt w' = holdAt w /\ env w' = env w /\
  rngState w' = Z.lxor (Z.lxor (rngState w) (u32 (Z.shiftl (u32 a1) 16))) (u32 a2) /\
  armed (tilt w') = false /\
  serial_of (out w') =
    serial_of (out w) ++ entry_text IDLE "stillness acknowledged." 0 0.
Proof.
  intros a1 a2. cbv zeta.
  apply (wp_exec setup w). unfold setup. wp_switch.
  use_entered. subst a1 a2.
  repeat split; try congruence.
  - rewrite H6. reflexivity.
  - destruct H7 as (pre & Ho & Hp). rewrite Ho.
    repeat rewrite <- app_assoc.
    rewrite !serial_of_app, Hp, serial_of_entry. simpl. reflexivity.
Qed.

Lemma AngerInv_boot e : AngerInv (boot e).
Proof.
  destruct (setup_spec (power_on e)) as (Hs & Ha & Hh & _).
  unfold boot, AngerInv, MAX_ANGER. rewrite Hs, Ha, Hh.
  repeat split; intros; try congruence; try lia.
Qed.

Lemma Reachable_AngerInv w : Reachable w -> AngerInv w.
Proof.
  induction 1 as [e|w R IH]; [apply AngerInv_boot | apply AngerInv_loop, IH].
Qed.

Lemma Reachable_run n : forall w, Reachable w -> Reachable (run n w).
Proof.
  induction n as [|n IH]; intros w R; simpl; [exact R|].
  apply IH, Reachable_loop, R.
Qed.

(** ** C1: the anger counter *)

(** C1.  In every reachable state the anger level lies in [0, 3].  Across
    one pass of [loop] it is either unchanged, or one higher -- and then a
    tilt event fired in ALERT, ANGRY or COOLDOWN while it was below 3 --
    or one lower -- and then the pass went from ANGRY to COOLDOWN -- or
    zero -- and then the pass went from LOCKED to IDLE. *)
Theorem anger_discipline w (R : Reachable w) :
  0 <= anger w <= MAX_ANGER /\
  (anger (exec loop w) = anger w
   \/ (anger (exec loop w) = anger w + 1 /\ anger w < MAX_ANGER /\
       tiltFired w = true /\
       (state w = ALERT \/ state w = ANGRY \/ state w = COOLDOWN))
   \/ (anger (exec loop w) = anger w - 1 /\
       state w = ANGRY /\ state (exec loop w) = COOLDOWN)
   \/ (anger (exec loop w) = 0 /\
       state w = LOCKED /\ state (exec loop w) = IDLE)).
Proof.
  destruct (Reachable_AngerInv w R) as (Ha & Hang & Hlk & Hh).
  split; [exact Ha|].
  loop_cases w w1; [now left|..].
  all: settle.
  all: try (left; lia).
  all: try (right; left; repeat split; auto; lia).
  all: try (right; right; left; repeat split; auto; lia).
  all: try (right; right; right; repeat split; auto; lia).
Qed.


(** ** C9: ANGRY implies anger >= 1 *)

(** C9.  In every reachable state, ANGRY comes with anger >= 1: a pass
    that enters ANGRY from ALERT or COOLDOWN leaves anger at
    min(anger + 1, 3), a pass that stays in ANGRY never lowers it, and the
    guarded decrement of a pass from ANGRY to COOLDOWN finds a nonzero
    counter, so it subtracts exactly 1 from the (possibly just
    incremented) level. *)
Theorem angry_has_anger w (R : Reachable w) :
  (state w = ANGRY -> 1 <= anger w) /\
  (state w = ALERT \/ state w = COOLDOWN ->
   state (exec loop w) = ANGRY ->
   anger (exec loop w) = Z.min (anger w + 1) MAX_ANGER /\ 1 <= anger (exec loop w)) /\
  (state w = ANGRY -> state (exec loop w) = ANGRY ->
   anger w <= anger (exec loop w)) /\
  (state w = ANGRY -> state (exec loop w) = COOLDOWN ->
   1 <= bumped w /\ anger (exec loop w) = bumped w - 1).
Proof.
  destruct (Reachable_AngerInv w R) as (Ha & Hang & Hlk & Hh).
  split; [exact Hang|].
  loop_cases w w1.
  { repeat split; intros;
      repeat match goal with H : _ \/ _ |- _ => destruct H end;
      try congruence; try lia; auto. }
  all: settle.
  all: repeat split; intros;
       repeat match goal with H : _ \/ _ |- _ => destruct H end;
       try congruence; try lia.
  all: rewrite ?Heqb; simpl.
  all: try (destruct (anger w <? 3) eqn:E; boolZ; lia).
Qed.

(** ** Time *)

Lemma u32_sub_add e d : 0 <= d < 2 ^ 32 -> u32 (u32 (e + d) - e) = d.
Proof.
  intros H. unfold u32.
  rewrite Zminus_mod_idemp_l.
  replace (e + d - e) with d by lia.
  apply Z.mod_small. lia.
Qed.

(** Under a steady clock every reading of the pass is [now]. *)
Ltac use_steady Hc :=
  repeat match goal with
  | H : context [u32 (s_millis (env ?w ?k))] |- _ =>
      change (u32 (s_millis (env w k))) with (clock w k) in H;
      rewrite (Hc k) in H by lia
  | |- context [u32 (s_millis (env ?w ?k))] =>
      change (u32 (s_millis (env w k))) with (clock w k);
      rewrite (Hc k) by lia
  end.

Lemma live_steady w now :
  steady w now -> live w = (MIN_STATE_MS <=? u32 (now - enteredAt w)).
Proof. intros Hc. rewrite live_eq, (Hc (ioCount w)) by lia. reflexivity. Qed.

(** ** C3: the anti-thrash floor *)

(** C3.  The guard is the first thing a pass does.  When the clock it reads
    is less than MIN_STATE_MS = 200 ms past the entry timestamp, the pass
    ends there: the only trace it leaves is that one clock read -- no
    input was polled, no variable changed, nothing was written.  So a pass
    that changes the state, or writes anything, read a dwell of at least
    200 ms; and when the pass sees one single time, the new entry
    timestamp is at least 200 ms past the old one. *)
Theorem min_state_guard w :
  MIN_STATE_MS = 200 /\
  (u32 (clock w (ioCount w) - enteredAt w) < MIN_STATE_MS ->
   exec loop w = set_ioCount (S (ioCount w)) w) /\
  (forall d, 0 <= d < MIN_STATE_MS ->
             clock w (ioCount w) = u32 (enteredAt w + d) ->
             exec loop w = set_ioCount (S (ioCount w)) w) /\
  (state (exec loop w) <> state w \/ out (exec loop w) <> out w ->
   MIN_STATE_MS <= u32 (clock w (ioCount w) - enteredAt w)) /\
  (forall now, steady w now -> state (exec loop w) <> state w ->
               enteredAt (exec loop w) = now /\
               MIN_STATE_MS <= u32 (enteredAt (exec loop w) - enteredAt w)).
Proof.
  assert (Hskip : u32 (clock w (ioCount w) - enteredAt w) < MIN_STATE_MS ->
                  exec loop w = set_ioCount (S (ioCount w)) w).
  { intros H. rewrite loop_unfold, live_eq.
    apply Z.leb_gt in H. rewrite H. apply after_guard_eq. }
  split; [reflexivity|]. split; [exact Hskip|]. split; [|split].
  - intros d Hd Hck. apply Hskip. rewrite Hck, u32_sub_add; unfold MIN_STATE_MS in *; lia.
  - intros Hch.
    destruct (Z.lt_ge_cases (u32 (clock w (ioCount w) - enteredAt w)) MIN_STATE_MS)
      as [Hlt|Hge]; [|exact Hge].
    rewrite (Hskip Hlt) in Hch. simpl in Hch. destruct Hch as [Hch|Hch]; congruence.
  - intros tm Hc.
    pose proof (live_steady w tm Hc) as Hl.
    loop_cases w w1; [congruence|..].
    all: intros Hne; rewrite L in Hl; symmetry in Hl.
    all: settle; try congruence.
    all: use_steady Hc.
    all: unfold MIN_STATE_MS in *; split; [congruence|].
    all: match goal with H : enteredAt ?x = _ |- context [enteredAt ?x] => rewrite H end; lia.
Qed.

(** ** C2: ANGRY to LOCKED *)

Lemma bumped_eq w :
  bumped w = if tiltFired w && (anger w <? MAX_ANGER) then anger w + 1 else anger w.
Proof. reflexivity. Qed.

Lemma steady_switch_read w tm i : steady w tm -> switch_read w i = tm.
Proof.
  intros Hc. unfold switch_read. apply Hc.
  destruct (pre_switch_quiet w) as (_ & _ & _ & _ & _ & _ & Hio & _). lia.
Qed.

(** C2.  In a pass that starts in ANGRY, whatever the clock does: the
    machine goes to LOCKED exactly when the pass gets beyond the guard,
    the anger level after this pass's tilt-driven increment is 3, and the
    clock read of the lockout check is at least 1200 ms past the entry
    into ANGRY.  When the pass sees one single time [now], that is:
    exactly when that level is 3 and [now] is at least 1200 ms past the
    entry.  A pass that stays in ANGRY -- with or without a tilt event --
    leaves the entry timestamp alone. *)
Theorem angry_to_locked w
    (Hs : state w = ANGRY) (Ha : 0 <= anger w <= MAX_ANGER) :
  (state (exec loop w) = LOCKED <->
   live w = true /\ bumped w = MAX_ANGER /\
   1200 <= u32 (switch_read w 0 - enteredAt w)) /\
  (forall now, steady w now ->
     (state (exec loop w) = LOCKED <->
      bumped w = MAX_ANGER /\ 1200 <= u32 (now - enteredAt w))) /\
  (state (exec loop w) = ANGRY -> enteredAt (exec loop w) = enteredAt w).
Proof.
  assert (Hgen : state (exec loop w) = LOCKED <->
                 live w = true /\ bumped w = MAX_ANGER /\
                 1200 <= u32 (switch_read w 0 - enteredAt w)).
  { rewrite bumped_eq. unfold switch_read, clock.
    loop_cases w w1; try congruence.
    { rewrite Hs. split; [congruence | intros (Hf & _); congruence]. }
    all: rewrite <- Hw1; settle.
    all: rewrite ?Heqb; simpl.
    all: repeat match goal with
                | |- context [?a <? ?b] =>
                    let E := fresh "E" in destruct (a <? b) eqn:E; boolZ
                end.
    all: split; [intros; try congruence | intros (_ & ? & ?); try congruence; try lia].
    all: repeat split; try assumption; try lia. }
  split; [exact Hgen|]. split.
  - intros tm Hc. rewrite Hgen, (steady_switch_read w tm 0 Hc).
    rewrite (live_steady w tm Hc).
    split; [tauto|]. intros (Hb & Hd). repeat split; auto.
    apply Z.leb_le. unfold MIN_STATE_MS. lia.
  - loop_cases w w1; try congruence.
    all: settle; intros; congruence.
Qed.

(** ** C5: IDLE to REWARD *)

(** The patience window of a pass is a function of the pot sample that
    this very pass reads, right after the guard's clock read. *)
Lemma patienceOf_eq w :
  patienceOf w =
  u32 (map_long (s_analog (env w (S (ioCount w))) PIN_POT)
                0 1023 IDLE_REWARD_MIN_MS IDLE_REWARD_MAX_MS).
Proof.
  unfold patienceOf, tick_inputs, eval, loop_inputs, analogRead, sample.
  rewrite after_guard_eq. unfold bind at 1. simpl.
  unfold bind at 1, get at 1. simpl.
  unfold bind at 1.
  destruct (event (state w) _) as [t w1].
  unfold bind at 1.
  destruct (buttonPressEvent w1) as [p w2]. reflexivity.
Qed.

Lemma i32_small z : - 2 ^ 31 <= z < 2 ^ 31 -> i32 z = z.
Proof. intros H. unfold i32. rewrite Z.mod_small; lia. Qed.

(** On a ten-bit reading [map] is the truncated linear map onto
    [5000, 20000]; no intermediate value leaves the range of [long]. *)
Lemma map_long_pot x :
  0 <= x <= 1023 ->
  u32 (map_long x 0 1023 IDLE_REWARD_MIN_MS IDLE_REWARD_MAX_MS)
  = IDLE_REWARD_MIN_MS + x * (IDLE_REWARD_MAX_MS - IDLE_REWARD_MIN_MS) / 1023
  /\ IDLE_REWARD_MIN_MS
     <= u32 (map_long x 0 1023 IDLE_REWARD_MIN_MS IDLE_REWARD_MAX_MS)
     <= IDLE_REWARD_MAX_MS.
Proof.
  intros Hx. unfold map_long, IDLE_REWARD_MIN_MS, IDLE_REWARD_MAX_MS.
  replace (x - 0) with x by lia.
  change (20000 - 5000) with 15000. change (1023 - 0) with 1023.
  rewrite (i32_small x) by lia.
  rewrite (i32_small 15000) by lia.
  rewrite (i32_small 1023) by lia.
  rewrite (i32_small (x * 15000)) by lia.
  rewrite Z.quot_div_nonneg by lia.
  assert (Hq : 0 <= x * 15000 / 1023 <= 15000).
  { split.
    - apply Z.div_pos; lia.
    - apply Z.div_le_upper_bound; lia. }
  rewrite i32_small by lia.
  rewrite u32_small by lia.
  split; lia.
Qed.

(** C5.  In a pass that starts in IDLE with a ten-bit pot reading: the
    patience window is the linear map of the pot sample read in this same
    pass and lies in [5000, 20000]; whatever the clock does, the machine
    goes to REWARD exactly when the pass gets beyond the guard, no tilt
    event fired, and the clock read of the reward check is at least that
    window past the entry into IDLE; when the pass sees one single time
    [now], that is: exactly when no tilt event fired and [now] is at least
    that window past the entry. *)
Theorem idle_to_reward w
    (Hs : state w = IDLE)
    (Hp : 0 <= s_analog (env w (S (ioCount w))) PIN_POT <= 1023) :
  patienceOf w =
    IDLE_REWARD_MIN_MS +
    s_analog (env w (S (ioCount w))) PIN_POT
      * (IDLE_REWARD_MAX_MS - IDLE_REWARD_MIN_MS) / 1023 /\
  5000 <= patienceOf w <= 20000 /\
  (state (exec loop w) = REWARD <->
   live w = true /\ tiltFired w = false /\
   patienceOf w <= u32 (switch_read w 0 - enteredAt w)) /\
  (forall now, steady w now ->
     (state (exec loop w) = REWARD <->
      tiltFired w = false /\ patienceOf w <= u32 (now - enteredAt w))).
Proof.
  pose proof (map_long_pot _ Hp) as (Hm & Hr).
  rewrite <- patienceOf_eq in Hm, Hr.
  unfold IDLE_REWARD_MIN_MS, IDLE_REWARD_MAX_MS in Hr.
  split; [exact Hm|]. split; [exact Hr|]. clear Hm.
  assert (Hgen : state (exec loop w) = REWARD <->
                 live w = true /\ tiltFired w = false /\
                 patienceOf w <= u32 (switch_read w 0 - enteredAt w)).
  { unfold switch_read, clock.
    loop_cases w w1; try congruence.
    { rewrite Hs. split; [congruence | intros (Hf & _); congruence]. }
    all: rewrite <- Hw1; settle.
    all: split; [intros; try congruence | intros (_ & ? & ?); try congruence; try lia].
    all: repeat split; try assumption; try lia. }
  split; [exact Hgen|].
  intros tm Hc. rewrite Hgen, (steady_switch_read w tm 0 Hc).
  rewrite (live_steady w tm Hc).
  split; [tauto|]. intros (Hb & Hd). repeat split; auto.
  apply Z.leb_le. unfold MIN_STATE_MS. lia.
Qed.

(** ** C4: leaving LOCKED *)

(** The LOCKED branch of the switch never looks at the tilt event. *)
Lemma locked_ignores_tilt pm t p w :
  state w = LOCKED -> loop_switch pm t p w = loop_switch pm false p w.
Proof.
  intros Hs. unfold loop_switch, bind, get. rewrite Hs. reflexivity.
Qed.

Ltac hold_cases w :=
  try match goal with
      | H : holdAt w = 0 |- _ => rewrite ?H in *; simpl in *
      | H : holdAt w <> 0 |- _ =>
          let E := fresh in
          destruct (holdAt w =? 0) eqn:E; [apply Z.eqb_eq in E; congruence|]
      end.

(** C4.  In a pass that starts in LOCKED the machine stays in LOCKED or
    goes to IDLE.  Whatever the clock does, it goes to IDLE exactly when
    the button is seen held and the clock read of the hold check is at
    least 2000 ms past the hold-start timestamp -- the pending one or, if
    none was pending, the one latched by the clock read just before, in
    this very pass -- and then anger and the hold-start timestamp are both
    reset to 0.  When the pass sees one single time [now], that is:
    exactly when the button is seen held, a timestamp is pending and [now]
    is at least 2000 ms past it.  A pass that sees the button held without
    unlocking keeps the pending timestamp, or latches the clock if none
    was pending; a pass that sees the button released resets the
    timestamp to 0 and stays in LOCKED.  Outside LOCKED no timestamp is
    ever pending.  The tilt event is not an input of the LOCKED branch,
    and a pass that stays in LOCKED leaves anger and the serial line
    untouched. *)
Theorem locked_exit w (Hs : state w = LOCKED) :
  (state (exec loop w) = LOCKED \/ state (exec loop w) = IDLE) /\
  (state (exec loop w) = IDLE <->
   heldSeen w = true /\
   if holdAt w =? 0
   then 2000 <= u32 (switch_read w 2 - switch_read w 1)
   else 2000 <= u32 (switch_read w 1 - holdAt w)) /\
  (state (exec loop w) = IDLE ->
   anger (exec loop w) = 0 /\ holdAt (exec loop w) = 0) /\
  (forall now, steady w now ->
     (state (exec loop w) = IDLE <->
      heldSeen w = true /\ holdAt w <> 0 /\ 2000 <= u32 (now - holdAt w))) /\
  (heldSeen w = true -> state (exec loop w) = LOCKED ->
   holdAt (exec loop w) = if holdAt w =? 0 then switch_read w 1 else holdAt w) /\
  (live w = true -> heldSeen w = false ->
   state (exec loop w) = LOCKED /\ holdAt (exec loop w) = 0) /\
  (state (exec loop w) = LOCKED ->
   anger (exec loop w) = anger w /\
   serial_of (out (exec loop w)) = serial_of (out w)) /\
  (forall pm t p w1, state w1 = LOCKED ->
     loop_switch pm t p w1 = loop_switch pm false p w1) /\
  (forall v, Reachable v -> state v <> LOCKED -> holdAt v = 0).
Proof.
  assert (Hinv : forall v, Reachable v -> state v <> LOCKED -> holdAt v = 0).
  { intros v R. apply (Reachable_AngerInv v R). }
  assert (Hz : forall tm, u32 (tm - tm) = 0).
  { intros tm. rewrite Z.sub_diag. reflexivity. }
  destruct (live w) eqn:L0.
  2: { rewrite loop_unfold, L0, after_guard_eq. unfold heldSeen. rewrite L0. simpl.
       rewrite Hs.
       repeat match goal with |- _ /\ _ => split end;
         auto using locked_ignores_tilt; intros; try congruence; try tauto.
       - split; [congruence | intros (Hf & _); discriminate Hf].
       - split; [congruence | intros (Hf & _); discriminate Hf]. }
  assert (Hgen : state (exec loop w) = IDLE <->
                 heldSeen w = true /\
                 if holdAt w =? 0
                 then 2000 <= u32 (switch_read w 2 - switch_read w 1)
                 else 2000 <= u32 (switch_read w 1 - holdAt w)).
  { loop_cases w w1; try congruence.
    all: assert (HS : heldSeen w = Bool.eqb (s_digital (env w1 (ioCount w1)) PIN_BUTTON) LOW)
           by (unfold heldSeen; rewrite L, <- Hw1; reflexivity).
    all: unfold switch_read, clock; rewrite <- Hw1; settle; rewrite ?HS.
    all: hold_cases w.
    all: split; [intros; try congruence | intros (? & ?); try congruence; try lia].
    all: repeat split; try assumption; try lia. }
  repeat match goal with |- _ /\ _ => split end; [ .. | exact Hinv].
  8: { intros. now apply locked_ignores_tilt. }
  2: { apply Hgen. }
  3: { intros tm Hc.
       rewrite Hgen, !(steady_switch_read w tm _ Hc), Hz.
       destruct (holdAt w =? 0) eqn:E; boolZ; intuition lia. }
  all: loop_cases w w1; try congruence.
  all: assert (HS : heldSeen w = Bool.eqb (s_digital (env w1 (ioCount w1)) PIN_BUTTON) LOW)
         by (unfold heldSeen; rewrite L, <- Hw1; reflexivity).
  all: unfold switch_read, clock; rewrite <- ?Hw1; settle; rewrite ?HS.
  all: try (destruct Hout as (l & Ho & Hl); rewrite ?Ho, ?serial_of_app, ?Hl, ?append_nil_r).
  all: hold_cases w.
  all: try (intuition (try congruence; try lia); fail).
Qed.

(** ** C6: telemetry *)

Lemma dec_inj n m : 0 <= n -> 0 <= m -> dec n = dec m -> n = m.
Proof.
  intros Hn Hm H. unfold dec in H.
  assert (Hnn : forall k, N.to_uint k <> Decimal.Nil).
  { intros [|p]; [discriminate | apply DecimalPos.Unsigned.to_uint_nonnil]. }
  apply (f_equal NilZero.uint_of_string) in H.
  rewrite !NilZero.usu in H by apply Hnn.
  injection H as H. apply DecimalN.Unsigned.to_uint_inj in H. lia.
Qed.

Lemma enter_telemetry next msg hz dur pm w :
  state (exec (enter next msg hz dur pm) w) = next /\
  anger (exec (enter next msg hz dur pm) w) = anger w /\
  (exists pre,
     out (exec (enter next msg hz dur pm) w)
     = (out w ++ pre ++ entry_effects next msg (anger w) pm)%list /\
     serial_of pre = "") /\
  serial_of (out (exec (enter next msg hz dur pm) w))
  = serial_of (out w) ++ entry_text next msg (anger w) pm.
Proof.
  apply (wp_exec (enter next msg hz dur pm) w). apply wp_enter. intros w' HE.
  use_entered. destruct H7 as (pre & Ho & Hp).
  repeat split; auto.
  - exists pre. auto.
  - rewrite Ho, !serial_of_app, Hp, serial_of_entry. reflexivity.
Qed.

Ltac tele_witness :=
  match goal with
  | Hm : ?m = "stop." \/ _, HE : Entered ?next ?m0 ?pm ?W _ |- _ =>
      exists (msg_text ANGRY m), (entry_text next m0 (anger W) pm)
  | HE : Entered ?next ?m0 ?pm ?W _ |- _ =>
      exists "", (entry_text next m0 (anger W) pm)
  | Hm : ?m = "stop." \/ _ |- _ => exists (msg_text ANGRY m), ""
  | _ => exists "", ""
  end.

Ltac tele_serial :=
  repeat match goal with
  | H : exists _ : list Effect, _ |- _ =>
      let l := fresh "l" in let Ho := fresh "Ho" in let Hl := fresh "Hl" in
      destruct H as (l & Ho & Hl)
  end;
  repeat match goal with
  | Ho : out _ = _ |- _ => rewrite Ho; clear Ho
  end;
  repeat rewrite serial_of_app;
  repeat match goal with
  | Hl : serial_of _ = "" |- _ => rewrite Hl; clear Hl
  end;
  repeat match goal with
  | H : state ?x = _ |- context [state ?x] => rewrite H
  end;
  rewrite ?serial_of_entry; simpl; rewrite ?append_nil_r, ?append_assoc; simpl.

Ltac known_fields :=
  repeat match goal with
  | H : state ?x = _ |- context [state ?x] => rewrite H
  | H : anger ?x = _ |- context [anger ?x] => rewrite H
  end.

(** Across one pass the serial line receives at most a rebuke line (in
    ANGRY, on a tilt event) and then at most one entry pair, which comes
    exactly when the state changes and carries the new state, the new
    anger level and this pass's patience window. *)
Lemma loop_telemetry w :
  exists pre entry,
    serial_of (out (exec loop w)) = serial_of (out w) ++ pre ++ entry /\
    (pre = "" \/
     (state w = ANGRY /\ tiltFired w = true /\
      exists m, (m = "stop." \/ m = "enough." \/ m = "do not.") /\
                pre = msg_text ANGRY m)) /\
    ((entry = "" /\ state (exec loop w) = state w) \/
     (state (exec loop w) <> state w /\
      exists m, entry = entry_text (state (exec loop w)) m
                                   (anger (exec loop w)) (patienceOf w))).
Proof.
  loop_cases w w1.
  { exists "", "". rewrite !append_nil_r. auto. }
  all: tele_witness.
  all: settle.
  all: split; [tele_serial; try reflexivity|].
  all: known_fields.
  all: split;
    [ first [ left; reflexivity
            | right; repeat split; auto; eexists; split; [eassumption | reflexivity] ]
    | first [ left; split; [reflexivity | congruence]
            | right; split; [congruence | eexists; reflexivity] ] ].
Qed.

(** C6, as the code has it.  Every call of [enter] writes exactly one
    human-readable line and then exactly one stat line, both tagged with
    the state just entered, the stat line carrying the anger level after
    the transition and the patience value the caller passed.  Across one
    pass of [loop] with a ten-bit pot reading, such a pair is written
    exactly when the state changes, at most once, and its patience value
    is this pass's window, in [5000, 20000]; the only other serial output
    of a pass is the rebuke line of a tilt event in ANGRY.  The entry into
    IDLE made by [setup] reports patienceMs=0. *)
Theorem entry_telemetry w
    (Hp : 0 <= s_analog (env w (S (ioCount w))) PIN_POT <= 1023) :
  (exists pre entry,
     serial_of (out (exec loop w)) = serial_of (out w) ++ pre ++ entry /\
     (pre = "" \/
      (state w = ANGRY /\ tiltFired w = true /\
       exists m, (m = "stop." \/ m = "enough." \/ m = "do not.") /\
                 pre = msg_text ANGRY m)) /\
     ((entry = "" /\ state (exec loop w) = state w) \/
      (state (exec loop w) <> state w /\
       5000 <= patienceOf w <= 20000 /\
       exists m, entry = entry_text (state (exec loop w)) m
                                    (anger (exec loop w)) (patienceOf w)))) /\
  (forall next msg hz dur pm v,
     state (exec (enter next msg hz dur pm) v) = next /\
     anger (exec (enter next msg hz dur pm) v) = anger v /\
     serial_of (out (exec (enter next msg hz dur pm) v))
     = serial_of (out v) ++
       entry_text (state (exec (enter next msg hz dur pm) v)) msg
                  (anger (exec (enter next msg hz dur pm) v)) pm) /\
  (forall e, serial_of (out (boot e))
             = entry_text IDLE "stillness acknowledged." 0 0).
Proof.
  split; [|split].
  - destruct (loop_telemetry w) as (pre & entry & H1 & H2 & H3).
    exists pre, entry. split; [exact H1|]. split; [exact H2|].
    destruct H3 as [H3|(H3 & H4)]; [left; exact H3|right].
    split; [exact H3|]. split; [|exact H4].
    rewrite patienceOf_eq.
    destruct (map_long_pot _ Hp) as (_ & Hr).
    unfold IDLE_REWARD_MIN_MS, IDLE_REWARD_MAX_MS in Hr. exact Hr.
  - intros next msg hz dur pm v.
    destruct (enter_telemetry next msg hz dur pm v) as (H1 & H2 & _ & H4).
    rewrite H1, H2. auto.
  - intros e. unfold boot.
    destruct (setup_spec (power_on e)) as (_ & _ & _ & _ & _ & _ & H).
    rewrite H. reflexivity.
Qed.

(** C6 as stated fails at boot: the stat line of the very first state
    entry reports a patience of 0, not a value in [5000, 20000]. *)
Lemma boot_patience_out_of_range :
  ~ entry_reports_patience (out (boot calm_env)).
Proof.
  intros (pre & st & msg & a & pm & H & Hr).
  remember (out (boot calm_env)) as l eqn:Hl.
  vm_compute in Hl. subst l.
  apply (f_equal (@rev Effect)) in H.
  rewrite rev_app_distr in H. unfold entry_effects in H. simpl in H.
  injection H as H _.
  change "0" with (dec 0) in H.
  apply dec_inj in H; lia.
Qed.

(** ** C7, C8: the tilt detector *)

Lemma Window_mono T w w' :
  env w' = env w -> (ioCount w <= ioCount w')%nat -> Window T w -> Window T w'.
Proof.
  intros He Hi H j k Hj Hk. rewrite He. apply H; lia.
Qed.

Lemma u32_sub a b : u32 (u32 a - u32 b) = u32 (a - b).
Proof. unfold u32. now rewrite <- Zminus_mod. Qed.

Ltac pick_read w :=
  first
    [ exists (S (ioCount w)); split; [lia | first [assumption | reflexivity | lia]]
    | exists (S (S (ioCount w))); split; [lia | first [assumption | reflexivity | lia]]
    | exists (S (S (S (ioCount w)))); split; [lia | first [assumption | reflexivity | lia]]
    | exists (S (S (S (S (ioCount w))))); split; [lia | first [assumption | reflexivity | lia]] ].

Ltac pick_rearm w :=
  let go j' :=
    (exists j'; split;
     [ lia | split; [assumption | right; split; [assumption | pick_read w]] ]) in
  first [ go (S (S (ioCount w))) | go (S (S (S (ioCount w))))
        | go (S (S (S (S (ioCount w))))) | go (S (S (S (S (S (ioCount w)))))) ].

(** One poll, in full. *)
Lemma event_polled s w : Polled s w (eval (event s) w) (exec (event s) w).
Proof.
  change (wp (event s) w (Polled s w)).
  destruct (s_digital (env w (ioCount w)) PIN_TILT) eqn:Hraw;
  destruct (lastRawAct (tilt w)) eqn:Hlast;
  destruct (armed (tilt w)) eqn:Harm;
  unfold event;
  repeat (wp_prim; cbv beta; simpl; rewrite ?Hraw, ?Hlast, ?Harm; simpl).
  all: unfold Polled, tilt_raw, read_in, clock; simpl.
  all: rewrite ?Hraw, ?Hlast, ?Harm; boolZ.
  all: repeat match goal with |- _ /\ _ => split end.
  all: try reflexivity; try lia; intros.
  all: repeat match goal with H : _ \/ _ |- _ => destruct H end.
  all: try congruence; try lia.
  all: repeat match goal with |- _ /\ _ => split end; try reflexivity; try congruence.
  all: try (pick_read w).
  all: try (right; repeat split; auto; pick_read w).
  all: try pick_rearm w.
Qed.

(** *** No second event inside one window *)

Lemma tilt_ops_cons o r w :
  eval (tilt_ops (o :: r)) w
  = eval (tilt_op o) w :: eval (tilt_ops r) (exec (tilt_op o) w).
Proof.
  unfold eval, exec. simpl. unfold bind.
  destruct (tilt_op o w) as [b w1]. simpl.
  destruct (tilt_ops r w1) as [bs w2]. reflexivity.
Qed.

Lemma tilt_op_frame o w :
  env (exec (tilt_op o) w) = env w /\
  (ioCount w <= ioCount (exec (tilt_op o) w))%nat.
Proof.
  destruct o as [s| |n].
  - destruct (event_polled s w) as (He & Hi & _). simpl. split; [exact He | lia].
  - apply (wp_exec (tilt_op OpReset) w (fun w' => env w' = env w /\ (ioCount w <= ioCount w')%nat)).
    unfold tilt_op, reset. wp_run. split; [reflexivity | lia].
  - simpl. split; [reflexivity | lia].
Qed.

(** Inside a window the wrapped difference of a later and an earlier
    reading is the true difference, and it is short. *)
Lemma Window_diff T w m k :
  Window T w -> (ioCount w <= k)%nat ->
  T <= m -> m <= s_millis (env w k) ->
  u32 (clock w k - u32 m) < TILT_REARM_MS.
Proof.
  intros HW Hk HT Hm. unfold clock. rewrite u32_sub.
  destruct (HW k k Hk (Nat.le_refl k)) as (A & B & C).
  unfold TILT_REARM_MS in *. rewrite u32_small; lia.
Qed.

(** A disarmed detector stays silent, and stays disarmed, for as long as
    the window lasts. *)
Lemma disarmed_step T o w :
  Window T w -> Disarmed T w ->
  eval (tilt_op o) w = false /\ Disarmed T (exec (tilt_op o) w).
Proof.
  intros HW (Harm & Hsince).
  destruct o as [s| |n].
  - simpl.
    destruct (event_polled s w)
      as (He & Hi & _ & _ & Hquiet & Hrearm & Hlatch & _).
    split; [auto|].
    unfold Disarmed. split.
    + destruct (armed (tilt (exec (event s) w))) eqn:Ha'; [exfalso|reflexivity].
      destruct (Hrearm Harm eq_refl) as (_ & _ & j' & Hj' & Hre & Hcase).
      destruct Hcase as [(Hnz & Hsame)|(Hz & j & Hj & Hl)].
      * destruct Hsince as [Hs0|(m & Hm & HT & Hle)]; [congruence|].
        rewrite Hsame, Hm in Hre.
        pose proof (Window_diff T w m j' HW ltac:(lia) HT (Hle j' ltac:(lia))).
        lia.
      * rewrite Hl in Hre. unfold clock at 2 in Hre.
        destruct (HW j j' ltac:(lia) ltac:(lia)) as (A & B & C).
        pose proof (Window_diff T w (s_millis (env w j)) j' HW ltac:(lia) A B).
        lia.
    + destruct (Z.eq_dec (inactiveSince (tilt (exec (event s) w)))
                         (inactiveSince (tilt w))) as [Heq|Hne].
      * rewrite Heq, He.
        destruct Hsince as [Hs0|(m & Hm & HT & Hle)]; [left; exact Hs0|right].
        exists m. split; [exact Hm|]. split; [exact HT|].
        intros k Hk. apply Hle. lia.
      * destruct (Hlatch Hne) as [(_ & H0)|(_ & _ & j & Hj & Hl)]; [left; exact H0|].
        right. exists (s_millis (env w j)). rewrite He. split; [exact Hl|].
        split.
        -- apply (HW j j); lia.
        -- intros k Hk. apply (HW j k); lia.
  - split; [reflexivity|].
    apply (wp_exec (tilt_op OpReset) w (Disarmed T)).
    unfold tilt_op, reset. wp_run. unfold Disarmed. simpl. auto.
  - split; [reflexivity|]. simpl. unfold exec, bind, modify, ret. simpl.
    unfold Disarmed. simpl. split; [exact Harm|].
    destruct Hsince as [Hs0|(m & Hm & HT & Hle)]; [left; exact Hs0|right].
    exists m. split; [exact Hm|]. split; [exact HT|].
    intros k Hk. apply Hle. lia.
Qed.

Lemma disarmed_silent T os :
  forall w, Window T w -> Disarmed T w -> fires (eval (tilt_ops os) w) = 0%nat.
Proof.
  induction os as [|o r IH]; intros w HW HD; [reflexivity|].
  rewrite tilt_ops_cons.
  destruct (disarmed_step T o w HW HD) as (Hf & HD').
  destruct (tilt_op_frame o w) as (He & Hi).
  rewrite Hf. unfold fires in *. simpl.
  apply IH; [eapply Window_mono; eauto | exact HD'].
Qed.

(** Whatever fires leaves the detector disarmed with no pending
    inactivity timestamp. *)
Lemma fired_disarmed T o w :
  eval (tilt_op o) w = true -> Disarmed T (exec (tilt_op o) w).
Proof.
  destruct o as [s| |n]; simpl; try discriminate.
  intros Hr. destruct (event_polled s w) as (_ & _ & _ & Hfire & _).
  destruct (Hfire Hr) as (_ & _ & Ha & Hs & _).
  unfold Disarmed. auto.
Qed.

Lemma window_one_event T os :
  forall w, Window T w -> (fires (eval (tilt_ops os) w) <= 1)%nat.
Proof.
  induction os as [|o r IH]; intros w HW; [simpl; unfold fires; simpl; lia|].
  rewrite tilt_ops_cons.
  destruct (tilt_op_frame o w) as (He & Hi).
  assert (HW' : Window T (exec (tilt_op o) w)) by (eapply Window_mono; eauto).
  destruct (eval (tilt_op o) w) eqn:Hr.
  - pose proof (disarmed_silent T r _ HW' (fired_disarmed T o w Hr)) as H0.
    unfold fires in *. simpl. lia.
  - specialize (IH _ HW'). unfold fires in *. simpl. exact IH.
Qed.

(** *** C7 *)

(** C7.  One poll of the detector, for any state and from any world:
    it fires only if the detector was armed and the reading is active and
    has passed the debounce check, and firing leaves it disarmed with the
    inactivity timestamp cleared; a disarmed detector never fires; it is
    re-armed only by a poll that reads a debounced inactive level at least
    TILT_REARM_MS = 140 ms after the inactivity timestamp; that timestamp
    is latched only at a debounced inactive reading and a debounced active
    reading clears it.  Hence, over any run of polls, resets and foreign
    reads whose clock readings stay inside one window shorter than
    TILT_REARM_MS -- in particular one debounce window, however the raw
    signal bounces -- at most one event fires, and none if the run starts
    disarmed. *)
Theorem tilt_event_once s w :
  let r := eval (event s) w in
  let w' := exec (event s) w in
  (r = true ->
   armed (tilt w) = true /\ tilt_raw w = true /\
   read_in w w' (fun c => needDb s <= u32 (c - changedAt (tilt w'))) /\
   armed (tilt w') = false /\ inactiveSince (tilt w') = 0) /\
  (armed (tilt w) = false -> r = false) /\
  (armed (tilt w) = false -> armed (tilt w') = true ->
   tilt_raw w = false /\
   read_in w w' (fun c => needDb s <= u32 (c - changedAt (tilt w'))) /\
   read_in w w' (fun c => TILT_REARM_MS <= u32 (c - inactiveSince (tilt w')))) /\
  (inactiveSince (tilt w') <> inactiveSince (tilt w) ->
   (tilt_raw w = true /\ inactiveSince (tilt w') = 0) \/
   (tilt_raw w = false /\ inactiveSince (tilt w) = 0 /\
    read_in w w' (fun c => inactiveSince (tilt w') = c))) /\
  (tilt_raw w = true ->
   inactiveSince (tilt w') = 0 \/
   read_in w w' (fun c => u32 (c - changedAt (tilt w')) < needDb s)) /\
  (forall T os, Window T w -> (fires (eval (tilt_ops os) w) <= 1)%nat) /\
  (forall T os, Window T w -> Disarmed T w ->
                fires (eval (tilt_ops os) w) = 0%nat) /\
  TILT_REARM_MS = 140 /\ needDb s <= TILT_REARM_MS.
Proof.
  cbv zeta.
  destruct (event_polled s w)
    as (He & Hi & Hl & Hfire & Hquiet & Hrearm & Hlatch & Hact & Hdb & Hch).
  repeat match goal with |- _ /\ _ => split end.
  - intros Hr. destruct (Hfire Hr) as (A & B & C & D & E). auto.
  - exact Hquiet.
  - intros Ha Ha'. destruct (Hrearm Ha Ha') as (A & B & j' & Hj' & Hre & _).
    split; [exact A|]. split; [exact B|]. exists j'. auto.
  - exact Hlatch.
  - intros Hraw. destruct (Hact Hraw) as [H0|(_ & _ & _ & H1)]; auto.
  - intros T os. apply window_one_event.
  - intros T os. apply disarmed_silent.
  - reflexivity.
  - unfold needDb, TILT_DB_IDLE_MS, TILT_DB_OTHER_MS, TILT_REARM_MS.
    destruct (State_eqb s IDLE); lia.
Qed.

(** *** C8 *)

Lemma tick_tilt_eq w :
  snd (fst (tick_inputs w))
  = eval (event (state w)) (set_ioCount (S (S (ioCount w))) w).
Proof.
  unfold tick_inputs, eval, loop_inputs, analogRead, sample.
  rewrite after_guard_eq. unfold bind at 1. simpl.
  unfold bind at 1, get at 1. simpl.
  unfold bind at 1.
  change (set_ioCount (S (S (ioCount w))) (set_ioCount (S (ioCount w)) w))
    with (set_ioCount (S (S (ioCount w))) w).
  destruct (event (state w) _) as [t w1].
  unfold bind at 1.
  destruct (buttonPressEvent w1) as [p w2]. reflexivity.
Qed.





(** ** C10: the generator state is never zero *)


Lemma lxor_range a b n :
  0 <= n -> 0 <= a < 2 ^ n -> 0 <= b < 2 ^ n -> 0 <= Z.lxor a b < 2 ^ n.
Proof.
  intros Hn Ha Hb.
  assert (H0 : 0 <= Z.lxor a b) by (apply Z.lxor_nonneg; lia).
  split; [exact H0|].
  destruct (Z.eq_dec (Z.lxor a b) 0) as [->|Hnz]; [apply Z.pow_pos_nonneg; lia|].
  assert (Hpos : 0 < n).
  { destruct (Z.eq_dec n 0) as [->|]; [|lia].
    exfalso. apply Hnz.
    assert (a = 0) by (change (2 ^ 0) with 1 in Ha; lia).
    assert (b = 0) by (change (2 ^ 0) with 1 in Hb; lia).
    subst. reflexivity. }
  apply Z.log2_lt_pow2; [lia|].
  pose proof (Z.log2_lxor a b ltac:(lia) ltac:(lia)) as Hl.
  assert (Z.log2 a < n).
  { destruct (Z.eq_dec a 0) as [->|]; [simpl; lia|apply Z.log2_lt_pow2; lia]. }
  assert (Z.log2 b < n).
  { destruct (Z.eq_dec b 0) as [->|]; [simpl; lia|apply Z.log2_lt_pow2; lia]. }
  lia.
Qed.

(** [x ^= x << k] on 32 bits has no nonzero fixed point to cancel against:
    [x = (x * 2^k) mod 2^32] forces [x = 0], because [2^k - 1] is odd. *)
Lemma shl_step_nonzero x k :
  0 < k < 32 -> 0 < x < 2 ^ 32 ->
  0 < Z.lxor x (u32 (Z.shiftl x k)) < 2 ^ 32.
Proof.
  intros Hk Hx.
  pose proof (u32_range (Z.shiftl x k)) as Hr.
  pose proof (lxor_range x (u32 (Z.shiftl x k)) 32 ltac:(lia) ltac:(lia) Hr) as Hl.
  assert (Hne : Z.lxor x (u32 (Z.shiftl x k)) <> 0); [|lia].
  intros H0. apply Z.lxor_eq in H0.
  unfold u32 in H0. rewrite Z.shiftl_mul_pow2 in H0 by lia.
  assert (Hd : (2 ^ 32 | x * (2 ^ k - 1))).
  { exists ((x * 2 ^ k) / 2 ^ 32).
    pose proof (Z.div_mod (x * 2 ^ k) (2 ^ 32) ltac:(lia)) as E.
    rewrite <- H0 in E. lia. }
  assert (Hg : Z.gcd (2 ^ 32) (2 ^ k - 1) = 1).
  { assert (Hk' : k = 1 \/ k = 2 \/ k = 3 \/ k = 4 \/ k = 5 \/ k = 6 \/ k = 7 \/
                  k = 8 \/ k = 9 \/ k = 10 \/ k = 11 \/ k = 12 \/ k = 13 \/
                  k = 14 \/ k = 15 \/ k = 16 \/ k = 17 \/ k = 18 \/ k = 19 \/
                  k = 20 \/ k = 21 \/ k = 22 \/ k = 23 \/ k = 24 \/ k = 25 \/
                  k = 26 \/ k = 27 \/ k = 28 \/ k = 29 \/ k = 30 \/ k = 31) by lia.
    repeat (destruct Hk' as [->|Hk']; [reflexivity|]). subst k. reflexivity. }
  rewrite Z.mul_comm in Hd.
  apply Z.gauss in Hd; [|rewrite Z.gcd_comm in Hg; rewrite Z.gcd_comm; exact Hg].
  destruct Hd as (q & Hq). nia.
Qed.

Lemma shr_step_nonzero x k :
  0 < k -> 0 < x < 2 ^ 32 -> 0 < Z.lxor x (Z.shiftr x k) < 2 ^ 32.
Proof.
  intros Hk Hx.
  rewrite Z.shiftr_div_pow2 by lia.
  assert (Hp : 2 <= 2 ^ k).
  { change 2 with (2 ^ 1) at 1. apply Z.pow_le_mono_r; lia. }
  assert (Hq : 0 <= x / 2 ^ k < x).
  { split; [apply Z.div_pos; lia|]. apply Z.div_lt; lia. }
  pose proof (lxor_range x (x / 2 ^ k) 32 ltac:(lia) ltac:(lia) ltac:(lia)) as Hl.
  assert (Hne : Z.lxor x (x / 2 ^ k) <> 0); [|lia].
  intros H0. apply Z.lxor_eq in H0. lia.
Qed.







(** ** The theorems at concrete inputs *)

Lemma frozen_steady s a ea hold t tp bp pot :
  0 <= t < 2 ^ 32 -> steady (world_at s a ea hold (frozen_env t tp bp pot)) t.
Proof. intros Ht k _. unfold clock. simpl. apply u32_small, Ht. Qed.

Lemma angry_to_locked_witness :
  state (run 34 (boot busy_env)) = ANGRY /\
  state (exec loop (run 34 (boot busy_env))) = LOCKED /\
  state (exec loop angry_world) = LOCKED.
Proof.
  assert (Hs : state (run 34 (boot busy_env)) = ANGRY) by (vm_compute; reflexivity).
  split; [exact Hs|]. split.
  - destruct (angry_to_locked (run 34 (boot busy_env)) Hs
                ltac:(vm_compute; split; discriminate)) as (Hiff & _).
    apply Hiff.
    split; [vm_compute; reflexivity|].
    split; [vm_compute; reflexivity | vm_compute; discriminate].
  - destruct (angry_to_locked angry_world eq_refl
                ltac:(simpl; unfold MAX_ANGER; lia)) as (_ & Hiff & _).
    apply (Hiff 4000 (frozen_steady ANGRY 3 1000 0 4000 LOW HIGH 512 ltac:(lia))).
    split; vm_compute; [reflexivity | discriminate].
Defined.

Lemma min_state_guard_witness :
  exec loop (boot calm_env)
  = set_ioCount (S (ioCount (boot calm_env))) (boot calm_env).
Proof.
  apply (proj1 (proj2 (min_state_guard (boot calm_env)))).
  vm_compute. reflexivity.
Defined.

Lemma locked_exit_witness :
  state (run 87 (boot busy_env)) = LOCKED /\
  state (exec loop (run 87 (boot busy_env))) = IDLE /\
  state (exec loop locked_world) = IDLE /\ anger (exec loop locked_world) = 0.
Proof.
  assert (Hs : state (run 87 (boot busy_env)) = LOCKED) by (vm_compute; reflexivity).
  split; [exact Hs|]. split.
  - pose proof (locked_exit (run 87 (boot busy_env)) Hs) as (_ & Hiff & _).
    apply Hiff.
    split; [vm_compute; reflexivity | vm_compute; discriminate].
  - pose proof (locked_exit locked_world eq_refl) as (_ & _ & Hreset & Hst & _).
    pose proof (Hst 3500 (frozen_steady LOCKED 3 0 1000 3500 LOW LOW 512 ltac:(lia)))
      as Hiff.
    assert (Hidle : state (exec loop locked_world) = IDLE).
    { apply Hiff. repeat split; vm_compute; discriminate || reflexivity. }
    split; [exact Hidle|]. apply (Hreset Hidle).
Defined.

Lemma idle_to_reward_witness :
  state idle_world = IDLE /\
  patienceOf idle_world = 12507 /\
  state (exec loop idle_world) = REWARD.
Proof.
  pose proof (idle_to_reward idle_world eq_refl ltac:(simpl; lia))
    as (Hpm & _ & _ & Hiff).
  split; [reflexivity|]. split.
  - rewrite Hpm. reflexivity.
  - apply (Hiff 13000 (frozen_steady IDLE 0 0 0 13000 LOW HIGH 512 ltac:(lia))).
    split; vm_compute; discriminate || reflexivity.
Defined.

Lemma entry_telemetry_witness :
  serial_of (out (boot calm_env))
  = entry_text IDLE "stillness acknowledged." 0 0.
Proof.
  apply (proj2 (proj2 (entry_telemetry idle_world ltac:(simpl; lia)))).
Defined.

Lemma frozen_window s a ea hold t tp bp pot te :
  Window t (set_tilt te (world_at s a ea hold (frozen_env t tp bp pot))).
Proof. intros j k _ _. simpl. unfold TILT_REARM_MS. lia. Qed.

Lemma tilt_event_once_witness :
  eval (event IDLE) armed_world = true /\
  armed (tilt (exec (event IDLE) armed_world)) = false /\
  (fires (eval (tilt_ops [OpPoll IDLE; OpPoll IDLE; OpOther 3; OpPoll ALERT])
               armed_world) <= 1)%nat.
Proof.
  assert (Hr : eval (event IDLE) armed_world = true) by (vm_compute; reflexivity).
  pose proof (tilt_event_once IDLE armed_world) as H. cbv zeta in H.
  destruct H as (Hfire & _ & _ & _ & _ & Hwin & _).
  split; [exact Hr|]. split.
  - apply (Hfire Hr).
  - apply (Hwin 1000). apply frozen_window.
Defined.


Lemma angry_has_anger_witness :
  state (run 21 (boot busy_env)) = ANGRY /\ 1 <= anger (run 21 (boot busy_env)).
Proof.
  assert (Hs : state (run 21 (boot busy_env)) = ANGRY) by (vm_compute; reflexivity).
  split; [exact Hs|].
  apply (proj1 (angry_has_anger _ (Reachable_run 21 _ (Reachable_boot busy_env))) Hs).
Defined.


Lemma anger_discipline_witness :
  0 <= anger (run 28 (boot busy_env)) <= MAX_ANGER.
Proof.
  exact (proj1 (anger_discipline _ (Reachable_run 28 _ (Reachable_boot busy_env)))).
Defined.

(** ** Runs of the sketch *)

Example map_long_ends :
  map_long 0 0 1023 IDLE_REWARD_MIN_MS IDLE_REWARD_MAX_MS = 5000 /\
  map_long 512 0 1023 IDLE_REWARD_MIN_MS IDLE_REWARD_MAX_MS = 12507 /\
  map_long 1023 0 1023 IDLE_REWARD_MIN_MS IDLE_REWARD_MAX_MS = 20000.
Proof. repeat split; vm_compute; reflexivity. Qed.

Example xorshift32_of_1 : xorshift32 1 = 270369.
Proof. vm_compute. reflexivity. Qed.

(** Boot, a tilt, a second tilt, two more while ANGRY, the lockout, and
    the unlock by a held button. *)
Example escalation_run :
  List.map (fun n => (state (run n (boot busy_env)), anger (run n (boot busy_env))))
           [0; 11; 21; 28; 35; 87; 88]%nat
  = [(IDLE, 0); (ALERT, 0); (ANGRY, 1); (ANGRY, 2); (LOCKED, 3); (LOCKED, 3); (IDLE, 0)].
Proof. vm_compute. reflexivity. Qed.

Example escalation_serial :
  serial_of (out (run 35 (boot busy_env)))
  = entry_text IDLE "stillness acknowledged." 0 0
    ++ entry_text ALERT "i felt that." 0 12507
    ++ entry_text ANGRY "you insist." 1 12507
    ++ msg_text ANGRY "stop."
    ++ msg_text ANGRY "enough."
    ++ entry_text LOCKED "locked." 3 12507.
Proof. vm_compute. reflexivity. Qed.

(** An undisturbed IDLE earns the reward once the patience window has
    passed, not before. *)
Example patient_run :
  state (exec loop idle_world) = REWARD /\
  state (exec loop (world_at IDLE 0 0 0 (frozen_env 12506 LOW HIGH 512))) = IDLE.
Proof. split; vm_compute; reflexivity. Qed.

(** Three polls inside one window on an armed detector with the sensor
    held active: one event. *)
Example held_sensor_fires_once :
  eval (tilt_ops [OpPoll IDLE; OpPoll IDLE; OpPoll IDLE]) armed_world
  = [true; false; false].
Proof. vm_compute. reflexivity. Qed.

(** * The rest of the sketch *)

(** ** [elapsed] *)

(** X1.  [elapsed(t0, ms)] compares [ms] with the time truly passed since
    the timestamp was taken, reduced modulo 2^32: the answer is exact as
    long as less than 2^32 ms have passed, whether or not [millis()]
    wrapped in between, and it aliases beyond.  The call makes exactly one
    clock read and changes nothing else. *)
Theorem elapsed_modular t0 d ms w
    (Hck : clock w (ioCount w) = u32 (t0 + d)) :
  eval (elapsed (u32 t0) ms) w = (ms <=? u32 d) /\
  (0 <= d < 2 ^ 32 -> eval (elapsed (u32 t0) ms) w = (ms <=? d)) /\
  exec (elapsed (u32 t0) ms) w = set_ioCount (S (ioCount w)) w.
Proof.
  assert (H : eval (elapsed (u32 t0) ms) w = (ms <=? u32 d)).
  { change (eval (elapsed (u32 t0) ms) w)
      with (ms <=? u32 (clock w (ioCount w) - u32 t0)).
    rewrite Hck, u32_sub. f_equal. f_equal. lia. }
  split; [exact H|]. split; [|reflexivity].
  intros Hd. rewrite H, u32_small by exact Hd. reflexivity.
Qed.

(** ** The patience knob *)

Lemma patience_value x :
  0 <= x <= 1023 ->
  u32 (map_long x 0 1023 IDLE_REWARD_MIN_MS IDLE_REWARD_MAX_MS)
  = 5000 + x * 15000 / 1023.
Proof. intros Hx. destruct (map_long_pot x Hx) as (H & _). exact H. Qed.

(** X16.  The patience window follows the pot: it is 5000 ms at reading 0
    and 20000 ms at reading 1023, it never decreases when the reading
    increases, and one step of the converter moves it by 14 or 15 ms. *)
Theorem patience_follows_pot w v
    (Hw : 0 <= potOf w <= 1023) (Hv : 0 <= potOf v <= 1023) :
  (potOf w = 0 -> patienceOf w = 5000) /\
  (potOf w = 1023 -> patienceOf w = 20000) /\
  (potOf w <= potOf v -> patienceOf w <= patienceOf v) /\
  (potOf v = potOf w + 1 -> 14 <= patienceOf v - patienceOf w <= 15).
Proof.
  unfold potOf in *. rewrite !patienceOf_eq.
  rewrite !patience_value by assumption.
  set (x := s_analog (env w (S (ioCount w))) PIN_POT) in *.
  set (y := s_analog (env v (S (ioCount v))) PIN_POT) in *.
  pose proof (Z.div_mod (x * 15000) 1023 ltac:(lia)).
  pose proof (Z.div_mod (y * 15000) 1023 ltac:(lia)).
  pose proof (Z.mod_pos_bound (x * 15000) 1023 ltac:(lia)).
  pose proof (Z.mod_pos_bound (y * 15000) 1023 ltac:(lia)).
  split; [intros ->; reflexivity|].
  split; [intros ->; reflexivity|].
  split; [intros Hxy; apply Z.add_le_mono_l, Z.div_le_mono; lia|].
  intros Hxy. lia.
Qed.

(** ** The generator *)

Lemma u32_land z : u32 z = Z.land z (Z.ones 32).
Proof. unfold u32. rewrite Z.land_ones by lia. reflexivity. Qed.

Lemma land_lxor_distr a b c :
  Z.land (Z.lxor a b) c = Z.lxor (Z.land a c) (Z.land b c).
Proof.
  apply Z.bits_inj'. intros n _.
  rewrite Z.lxor_spec, !Z.land_spec, Z.lxor_spec.
  destruct (Z.testbit a n), (Z.testbit b n), (Z.testbit c n); reflexivity.
Qed.

Lemma lxor_swap a b c d :
  Z.lxor (Z.lxor a b) (Z.lxor c d) = Z.lxor (Z.lxor a c) (Z.lxor b d).
Proof.
  rewrite !Z.lxor_assoc. f_equal.
  rewrite <- !Z.lxor_assoc. f_equal. apply Z.lxor_comm.
Qed.

Lemma shl_step_inj k x y :
  0 < k < 32 -> 0 <= x < 2 ^ 32 -> 0 <= y < 2 ^ 32 ->
  Z.lxor x (u32 (Z.shiftl x k)) = Z.lxor y (u32 (Z.shiftl y k)) -> x = y.
Proof.
  intros Hk Hx Hy H.
  apply Z.lxor_eq.
  pose proof (lxor_range x y 32 ltac:(lia) Hx Hy) as Hz.
  destruct (Z.eq_dec (Z.lxor x y) 0) as [E|E]; [exact E|exfalso].
  pose proof (shl_step_nonzero (Z.lxor x y) k Hk ltac:(lia)) as Hn.
  assert (Hlin : Z.lxor (Z.lxor x y) (u32 (Z.shiftl (Z.lxor x y) k))
                 = Z.lxor (Z.lxor x (u32 (Z.shiftl x k)))
                          (Z.lxor y (u32 (Z.shiftl y k)))).
  { rewrite Z.shiftl_lxor, !u32_land, land_lxor_distr. apply lxor_swap. }
  rewrite Hlin, H, Z.lxor_nilpotent in Hn. lia.
Qed.

Lemma shr_step_inj k x y :
  0 < k -> 0 <= x < 2 ^ 32 -> 0 <= y < 2 ^ 32 ->
  Z.lxor x (Z.shiftr x k) = Z.lxor y (Z.shiftr y k) -> x = y.
Proof.
  intros Hk Hx Hy H.
  apply Z.lxor_eq.
  pose proof (lxor_range x y 32 ltac:(lia) Hx Hy) as Hz.
  destruct (Z.eq_dec (Z.lxor x y) 0) as [E|E]; [exact E|exfalso].
  pose proof (shr_step_nonzero (Z.lxor x y) k Hk ltac:(lia)) as Hn.
  assert (Hlin : Z.lxor (Z.lxor x y) (Z.shiftr (Z.lxor x y) k)
                 = Z.lxor (Z.lxor x (Z.shiftr x k)) (Z.lxor y (Z.shiftr y k))).
  { rewrite Z.shiftr_lxor. apply lxor_swap. }
  rewrite Hlin, H, Z.lxor_nilpotent in Hn. lia.
Qed.

Lemma shl_step_range k x :
  0 <= x < 2 ^ 32 -> 0 <= Z.lxor x (u32 (Z.shiftl x k)) < 2 ^ 32.
Proof. intros Hx. apply lxor_range; [lia|exact Hx|apply u32_range]. Qed.

Lemma shr_step_range k x :
  0 < k -> 0 <= x < 2 ^ 32 -> 0 <= Z.lxor x (Z.shiftr x k) < 2 ^ 32.
Proof.
  intros Hk Hx. apply lxor_range; [lia|exact Hx|].
  rewrite Z.shiftr_div_pow2 by lia.
  assert (0 < 2 ^ k) by (apply Z.pow_pos_nonneg; lia).
  split; [apply Z.div_pos; lia|].
  apply Z.le_lt_trans with x; [|lia].
  apply Z.div_le_upper_bound; nia.
Qed.

(** X13.  One round of the generator never merges two 32-bit states: it is
    injective, hence a permutation of the 32-bit values that keeps 0 apart
    from the rest, and [rng] cannot fall into a shorter cycle through a
    collision. *)
Theorem xorshift32_inj x y
    (Hx : 0 <= x < 2 ^ 32) (Hy : 0 <= y < 2 ^ 32) :
  xorshift32 x = xorshift32 y -> x = y.
Proof.
  unfold xorshift32. cbv zeta. intros H.
  apply shl_step_inj in H;
    [ | lia | apply shr_step_range; [lia | apply shl_step_range; assumption]
      | apply shr_step_range; [lia | apply shl_step_range; assumption] ].
  apply shr_step_inj in H;
    [ | lia | apply shl_step_range; assumption | apply shl_step_range; assumption ].
  apply shl_step_inj in H; [exact H | lia | assumption | assumption].
Qed.

(** ** The transition graph *)

Ltac new_state :=
  repeat match goal with
         | H : state ?v = _ |- context [state ?v] => rewrite H
         end.

(** X2.  One pass of [loop] either keeps the state or follows one of the
    eleven arrows of the switch; in particular LOCKED is entered from
    ANGRY only, REWARD from IDLE only, and LOCKED is left for IDLE only.
    A pass that keeps the state keeps the entry timestamp, so [enteredAt]
    always dates the entry into the current state. *)
Theorem transition_graph w :
  (state (exec loop w) = state w \/
   edge (state w) (state (exec loop w)) = true) /\
  (state (exec loop w) = state w -> enteredAt (exec loop w) = enteredAt w).
Proof.
  loop_cases w w1; [split; [now left | reflexivity]|..].
  all: settle; new_state.
  all: split; [first [left; congruence | right; reflexivity]
              | intros; congruence].
Qed.

Lemma dead_pass w :
  live w = false -> tiltFired w = false /\ pressFired w = false.
Proof. intros L. unfold tiltFired, pressFired. rewrite L. split; reflexivity. Qed.

Ltac dead_inputs :=
  match goal with
  | L : live ?w = false |- _ =>
      let Ht := fresh "Ht" in let Hp := fresh "Hp" in
      destruct (dead_pass w L) as (Ht & Hp); rewrite ?Ht, ?Hp, ?L
  end.

Ltac iff_cases :=
  repeat match goal with
         | |- _ /\ _ => split
         | |- _ <-> _ => split
         end;
  intros;
  repeat match goal with
         | H : _ /\ _ |- _ => destruct H
         | H : _ \/ _ |- _ => destruct H
         end;
  try congruence; try lia; auto.

(** ** IDLE: waking up *)

(** X6.  From IDLE the machine goes to ALERT exactly when a tilt event
    fired in this pass, whether or not the patience window has run out:
    the tilt is looked at first.  Neither exit of IDLE changes the anger
    level. *)
Theorem idle_to_alert w (Hs : state w = IDLE) :
  (state (exec loop w) = ALERT <-> tiltFired w = true) /\
  anger (exec loop w) = anger w.
Proof.
  loop_cases w w1; try congruence.
  { dead_inputs. rewrite Hs. iff_cases. }
  all: settle; rewrite ?Heqb; iff_cases.
Qed.

(** ** ALERT *)

(** X3.  From ALERT the machine stays, goes to ANGRY or goes to IDLE.  It
    goes to ANGRY exactly when a tilt event fired in this pass; it goes to
    IDLE exactly when no tilt event fired and either a button press was
    detected or the clock read of the timeout check is at least 10000 ms
    past the entry.  So a tilt beats a press, and a press beats the
    timeout.  Going back to IDLE leaves the anger level as it is. *)
Theorem alert_exits w (Hs : state w = ALERT) :
  (state (exec loop w) = ALERT \/ state (exec loop w) = ANGRY \/
   state (exec loop w) = IDLE) /\
  (state (exec loop w) = ANGRY <-> tiltFired w = true) /\
  (state (exec loop w) = IDLE <->
   live w = true /\ tiltFired w = false /\
   (pressFired w = true \/
    ALERT_TIMEOUT_MS <= u32 (switch_read w 0 - enteredAt w))) /\
  (forall now, steady w now ->
     (state (exec loop w) = IDLE <->
      tiltFired w = false /\
      (pressFired w = true \/ ALERT_TIMEOUT_MS <= u32 (now - enteredAt w)))) /\
  (state (exec loop w) = IDLE -> anger (exec loop w) = anger w).
Proof.
  assert (Hgen : state (exec loop w) = IDLE <->
     live w = true /\ tiltFired w = false /\
     (pressFired w = true \/
      ALERT_TIMEOUT_MS <= u32 (switch_read w 0 - enteredAt w))).
  { loop_cases w w1; try congruence.
    { rewrite Hs. iff_cases. }
    all: unfold switch_read, clock, ALERT_TIMEOUT_MS in *; rewrite <- Hw1.
    all: settle; rewrite ?Heqb, ?Heqb0; iff_cases. }
  split; [|split; [|split; [exact Hgen|split]]].
  - loop_cases w w1; try congruence; [auto|..].
    all: settle; auto.
  - loop_cases w w1; try congruence.
    { dead_inputs. rewrite Hs. iff_cases. }
    all: settle; rewrite ?Heqb; iff_cases.
  - intros tm Hc. rewrite Hgen, (steady_switch_read w tm 0 Hc).
    rewrite (live_steady w tm Hc). unfold pressFired, ALERT_TIMEOUT_MS, MIN_STATE_MS.
    rewrite (live_steady w tm Hc).
    split; [intros (_ & H); exact H|]. intros (Hb & [Hd|Hd]).
    + split; [|split; [exact Hb | left; exact Hd]].
      apply andb_true_iff in Hd. apply Hd.
    + split; [|split; [exact Hb | right; exact Hd]].
      apply Z.leb_le. lia.
  - loop_cases w w1; try congruence.
    all: settle; intros; congruence.
Qed.

(** ** COOLDOWN and REWARD *)

(** X4.  From COOLDOWN the machine stays, goes back to ANGRY or goes to
    IDLE: to ANGRY exactly when a tilt event fired in this pass, to IDLE
    exactly when none fired and the clock read of the timeout check is at
    least 10000 ms past the entry.  Reaching IDLE this way forgives
    nothing: the anger level is kept. *)
Theorem cooldown_exits w (Hs : state w = COOLDOWN) :
  (state (exec loop w) = COOLDOWN \/ state (exec loop w) = ANGRY \/
   state (exec loop w) = IDLE) /\
  (state (exec loop w) = ANGRY <-> tiltFired w = true) /\
  (state (exec loop w) = IDLE <->
   live w = true /\ tiltFired w = false /\
   COOLDOWN_MS <= u32 (switch_read w 0 - enteredAt w)) /\
  (forall now, steady w now ->
     (state (exec loop w) = IDLE <->
      tiltFired w = false /\ COOLDOWN_MS <= u32 (now - enteredAt w))) /\
  (state (exec loop w) = IDLE -> anger (exec loop w) = anger w).
Proof.
  assert (Hgen : state (exec loop w) = IDLE <->
     live w = true /\ tiltFired w = false /\
     COOLDOWN_MS <= u32 (switch_read w 0 - enteredAt w)).
  { loop_cases w w1; try congruence.
    { rewrite Hs. iff_cases. }
    all: unfold switch_read, clock, COOLDOWN_MS in *; rewrite <- Hw1.
    all: settle; rewrite ?Heqb; iff_cases. }
  split; [|split; [|split; [exact Hgen|split]]].
  - loop_cases w w1; try congruence; [auto|..].
    all: settle; auto.
  - loop_cases w w1; try congruence.
    { dead_inputs. rewrite Hs. iff_cases. }
    all: settle; rewrite ?Heqb; iff_cases.
  - intros tm Hc. rewrite Hgen, (steady_switch_read w tm 0 Hc).
    rewrite (live_steady w tm Hc). unfold COOLDOWN_MS, MIN_STATE_MS.
    split; [intros (_ & H); exact H|]. intros (Hb & Hd).
    split; [|split; [exact Hb | exact Hd]].
    apply Z.leb_le. lia.
  - loop_cases w w1; try congruence.
    all: settle; intros; congruence.
Qed.

(** X5.  From REWARD the machine stays, goes to ALERT or goes to IDLE: to
    ALERT exactly when a tilt event fired in this pass, to IDLE exactly
    when none fired and the clock read of the timeout check is at least
    8000 ms past the entry.  No pass that starts in REWARD changes the
    anger level. *)
Theorem reward_exits w (Hs : state w = REWARD) :
  (state (exec loop w) = REWARD \/ state (exec loop w) = ALERT \/
   state (exec loop w) = IDLE) /\
  (state (exec loop w) = ALERT <-> tiltFired w = true) /\
  (state (exec loop w) = IDLE <->
   live w = true /\ tiltFired w = false /\
   REWARD_MS <= u32 (switch_read w 0 - enteredAt w)) /\
  (forall now, steady w now ->
     (state (exec loop w) = IDLE <->
      tiltFired w = false /\ REWARD_MS <= u32 (now - enteredAt w))) /\
  anger (exec loop w) = anger w.
Proof.
  assert (Hgen : state (exec loop w) = IDLE <->
     live w = true /\ tiltFired w = false /\
     REWARD_MS <= u32 (switch_read w 0 - enteredAt w)).
  { loop_cases w w1; try congruence.
    { rewrite Hs. iff_cases. }
    all: unfold switch_read, clock, REWARD_MS in *; rewrite <- Hw1.
    all: settle; rewrite ?Heqb; iff_cases. }
  split; [|split; [|split; [exact Hgen|split]]].
  - loop_cases w w1; try congruence; [auto|..].
    all: settle; auto.
  - loop_cases w w1; try congruence.
    { dead_inputs. rewrite Hs. iff_cases. }
    all: settle; rewrite ?Heqb; iff_cases.
  - intros tm Hc. rewrite Hgen, (steady_switch_read w tm 0 Hc).
    rewrite (live_steady w tm Hc). unfold REWARD_MS, MIN_STATE_MS.
    split; [intros (_ & H); exact H|]. intros (Hb & Hd).
    split; [|split; [exact Hb | exact Hd]].
    apply Z.leb_le. lia.
  - loop_cases w w1; try congruence.
    all: settle; intros; congruence.
Qed.

(** ** ANGRY: calming down *)

(** X7.  From ANGRY the machine stays, locks or cools down.  Whatever the
    clock does, it goes to COOLDOWN exactly when the pass gets beyond the
    guard, the lockout did not strike, and the clock read of the calm
    check is at least 15000 ms past the entry -- where the lockout check
    reads the clock first only if the anger level, after this pass's
    tilt-driven increment, is 3.  When the pass sees one single time
    [now], that is: exactly when that level is below 3 and [now] is at
    least 15000 ms past the entry; at level 3 the only way out of ANGRY is
    the lockout. *)
Theorem angry_to_cooldown w
    (Hs : state w = ANGRY) (Ha : 0 <= anger w <= MAX_ANGER) :
  (state (exec loop w) = ANGRY \/ state (exec loop w) = LOCKED \/
   state (exec loop w) = COOLDOWN) /\
  (state (exec loop w) = COOLDOWN <->
   live w = true /\
   if bumped w =? MAX_ANGER
   then u32 (switch_read w 0 - enteredAt w) < 1200 /\
        ANGRY_CALM_MS <= u32 (switch_read w 1 - enteredAt w)
   else ANGRY_CALM_MS <= u32 (switch_read w 0 - enteredAt w)) /\
  (forall now, steady w now ->
     (state (exec loop w) = COOLDOWN <->
      bumped w < MAX_ANGER /\ ANGRY_CALM_MS <= u32 (now - enteredAt w))).
Proof.
  assert (Hgen : state (exec loop w) = COOLDOWN <->
     live w = true /\
     if bumped w =? MAX_ANGER
     then u32 (switch_read w 0 - enteredAt w) < 1200 /\
          ANGRY_CALM_MS <= u32 (switch_read w 1 - enteredAt w)
     else ANGRY_CALM_MS <= u32 (switch_read w 0 - enteredAt w)).
  { rewrite bumped_eq.
    loop_cases w w1; try congruence.
    { rewrite Hs. iff_cases. }
    all: unfold switch_read, clock, ANGRY_CALM_MS in *; rewrite <- Hw1.
    all: settle; rewrite ?Heqb; simpl.
    all: repeat match goal with
                | |- context [?a <? ?b] =>
                    let E := fresh "E" in destruct (a <? b) eqn:E; boolZ
                | |- context [?a =? ?b] =>
                    let E := fresh "E" in destruct (a =? b) eqn:E; boolZ
                end.
    all: iff_cases. }
  split; [|split; [exact Hgen|]].
  - loop_cases w w1; try congruence; [auto|..].
    all: settle; auto.
  - intros tm Hc. rewrite Hgen, !(steady_switch_read w tm _ Hc).
    rewrite (live_steady w tm Hc). unfold ANGRY_CALM_MS, MIN_STATE_MS.
    assert (Hb : bumped w <= MAX_ANGER).
    { rewrite bumped_eq. unfold MAX_ANGER in *.
      destruct (tiltFired w && (anger w <? 3)) eqn:E; [|lia].
      apply andb_true_iff in E. destruct E as (_ & E). boolZ. lia. }
    destruct (bumped w =? MAX_ANGER) eqn:E; boolZ.
    + split; [intros (_ & H1 & H2); lia | intros (H1 & _); lia].
    + split; [intros (_ & H); split; [lia | exact H]|].
      intros (_ & H). split; [apply Z.leb_le; lia | exact H].
Qed.

(** ** Footprints *)

(** A poll of the tilt detector touches the detector and the read counter,
    nothing else. *)
Lemma event_footprint s w :
  exec (event s) w
  = set_ioCount (ioCount (exec (event s) w)) (set_tilt (tilt (exec (event s) w)) w).
Proof.
  apply (wp_exec (event s) w
           (fun w' => w' = set_ioCount (ioCount w') (set_tilt (tilt w') w))).
  unfold event. wp_run. all: reflexivity.
Qed.

(** A poll of the button touches its three statics and the read counter. *)
Lemma buttonPressEvent_footprint w :
  exec buttonPressEvent w
  = set_ioCount (ioCount (exec buttonPressEvent w))
      (set_btn (btn_stable (exec buttonPressEvent w))
               (btn_lastRaw (exec buttonPressEvent w))
               (btn_changedAt (exec buttonPressEvent w)) w).
Proof.
  apply (wp_exec buttonPressEvent w
           (fun w' => w' = set_ioCount (ioCount w')
                             (set_btn (btn_stable w') (btn_lastRaw w')
                                      (btn_changedAt w') w))).
  unfold buttonPressEvent. wp_run. all: reflexivity.
Qed.

Lemma angryEffectsTick_exec w : exec angryEffectsTick w = beeped (blinked w).
Proof.
  apply (wp_exec angryEffectsTick w (fun w' => w' = beeped (blinked w))).
  unfold angryEffectsTick, beeped, blinked, beepDue, blinkDue, clock.
  wp_run.
  all: repeat match goal with H : _ = _ |- _ => rewrite H end; simpl.
  all: repeat match goal with H : _ = _ |- _ => rewrite H end; reflexivity.
Qed.

Lemma enter_exec next msg hz dur pm w :
  exec (enter next msg hz dur pm) w = entered next msg hz dur pm w.
Proof.
  apply (wp_exec (enter next msg hz dur pm) w
           (fun w' => w' = entered next msg hz dur pm w)).
  unfold enter, entered, enter_effects, clock.
  destruct next; repeat (wp_enter_step; cbv beta; simpl); try discriminate.
  all: repeat rewrite <- app_assoc; simpl.
  all: try (destruct (s_digital (env w (S (ioCount w))) PIN_TILT); reflexivity).
Qed.

(** ** The pieces of a pass, spelled out *)

Lemma wp_entered next msg hz dur pm w (Q : unit -> World -> Prop) :
  Q tt (entered next msg hz dur pm w) -> wp (enter next msg hz dur pm) w Q.
Proof.
  intros H. unfold wp. rewrite enter_exec.
  destruct (eval (enter next msg hz dur pm) w). exact H.
Qed.

Lemma loop_inputs_exec w :
  exec loop_inputs w
  = exec buttonPressEvent (exec (event (state w)) (set_ioCount (S (ioCount w)) w)).
Proof.
  unfold loop_inputs, exec, analogRead, sample.
  unfold bind at 1. simpl. unfold bind at 1, get at 1. simpl.
  unfold bind at 1.
  destruct (event (state w) _) as [t w1]. simpl.
  unfold bind at 1.
  destruct (buttonPressEvent w1) as [p w2]. reflexivity.
Qed.

Lemma loop_effects_exec w :
  exec loop_effects w =
  match state w with
  | ANGRY => beeped (blinked w)
  | LOCKED => set_out (out w ++ lamp_effects true false false) w
  | _ => w
  end.
Proof.
  destruct (state w) eqn:Hs.
  3: { rewrite <- angryEffectsTick_exec.
       unfold loop_effects, exec, bind, get. rewrite Hs. simpl.
       destruct (angryEffectsTick w) as [u w1] eqn:E. simpl.
       assert (Hq : state w1 = ANGRY).
       { change w1 with (snd (u, w1)). rewrite <- E.
         change (snd (angryEffectsTick w)) with (exec angryEffectsTick w).
         rewrite angryEffectsTick_exec. unfold beeped, blinked.
         destruct (blinkDue w); destruct (beepDue _); simpl; exact Hs. }
       rewrite Hq. reflexivity. }
  all: unfold loop_effects, exec, bind, get; rewrite Hs; simpl; rewrite ?Hs; simpl.
  all: try reflexivity.
  unfold lamp_effects. repeat rewrite <- app_assoc. reflexivity.
Qed.

(** The world the switch starts from: the guard's read, the pot read, the
    two polls, the per-state effects. *)
Lemma pre_switch_exec w :
  pre_switch w
  = exec loop_effects
      (exec buttonPressEvent
         (exec (event (state w)) (set_ioCount (S (S (ioCount w))) w))).
Proof.
  unfold pre_switch. rewrite loop_inputs_exec, after_guard_eq. reflexivity.
Qed.

Lemma pin_level_app p l l' :
  pin_level p (l ++ l') = fold_left (pin_after p) l' (pin_level p l).
Proof. apply fold_left_app. Qed.

Lemma piezo_app l l' : piezo (l ++ l') = fold_left sound_after l' (piezo l).
Proof. apply fold_left_app. Qed.

Ltac wp_switch_x_step :=
  lazymatch goal with
  | |- wp (enter _ _ _ _ _) _ _ => apply wp_entered
  | |- wp (pick3 _ _ _) _ _ => apply wp_pick3; intros ? ?
  | |- wp compliment _ _ => apply wp_compliment; intros ?
  | |- wp bumpAnger _ _ => unfold bumpAnger
  | |- wp buttonHeld _ _ => unfold buttonHeld
  | |- wp (printStateMsg _) _ _ => unfold printStateMsg
  | |- wp (pinMode _ _) _ _ => unfold pinMode
  | _ => wp_prim
  end.

Arguments entered : simpl never.
Arguments beeped : simpl never.
Arguments blinked : simpl never.
Arguments pin_level : simpl never.
Arguments piezo : simpl never.

Ltac wp_switch_x := repeat (wp_switch_x_step; cbv beta; simpl).

(** ** Lamps and piezo *)

Lemma event_untouched s w : Untouched w (exec (event s) w).
Proof.
  apply (wp_exec (event s) w (Untouched w)).
  unfold event. wp_run. all: unfold Untouched; simpl; repeat split; lia.
Qed.

Lemma buttonPressEvent_untouched w : Untouched w (exec buttonPressEvent w).
Proof.
  apply (wp_exec buttonPressEvent w (Untouched w)).
  unfold buttonPressEvent. wp_run. all: unfold Untouched; simpl; repeat split; lia.
Qed.

Lemma Untouched_trans a b c : Untouched a b -> Untouched b c -> Untouched a c.
Proof.
  unfold Untouched.
  intros (H1 & H2 & H3 & H4 & H5 & H6 & H7 & H8 & H9 & H10 & H11)
         (K1 & K2 & K3 & K4 & K5 & K6 & K7 & K8 & K9 & K10 & K11).
  repeat split; try congruence. lia.
Qed.

Lemma inputs_untouched w :
  Untouched w (exec buttonPressEvent
                 (exec (event (state w)) (set_ioCount (S (S (ioCount w))) w))).
Proof.
  eapply Untouched_trans; [|apply buttonPressEvent_untouched].
  eapply Untouched_trans; [|apply event_untouched].
  unfold Untouched. simpl. repeat split. lia.
Qed.

Ltac at_inputs w v :=
  rewrite pre_switch_exec;
  let Hu := fresh "Hu" in
  pose proof (inputs_untouched w) as Hu;
  set (v := exec buttonPressEvent _) in *; clearbody v;
  destruct Hu as (Ust & Uan & Uea & Ubl & Ube & Ure & Urn & Uho & Uen & Uout & Uio);
  rewrite loop_effects_exec, Ust.

Lemma LampInv_pre_switch w : LampInv w -> LampInv (pre_switch w).
Proof.
  intros (HR & HY & HG). at_inputs w v.
  destruct (state w) eqn:Hs; unfold LampInv; simpl;
    rewrite ?Ust, ?Uout, ?Ure, ?Hs, ?HR, ?HY, ?HG; simpl; auto.
  - unfold beeped, blinked.
    destruct (blinkDue v); simpl;
      match goal with |- context [beepDue ?c] => destruct (beepDue c) end; simpl;
      rewrite ?pin_level_app, ?Ust, ?Uout, ?Ure, ?Hs, ?HR, ?HY, ?HG; simpl; auto.
  - rewrite !pin_level_app, ?Uout, ?HR, ?HY, ?HG. simpl. auto.
Qed.

Lemma PiezoInv_pre_switch w : PiezoInv w -> PiezoInv (pre_switch w).
Proof.
  unfold PiezoInv. at_inputs w v.
  destruct (state w) eqn:Hs; simpl; rewrite ?Ust, ?Uout, ?Hs; auto.
  - unfold beeped, blinked.
    intros (hz & dur & Hp & Hr).
    destruct (blinkDue v); simpl;
      match goal with |- context [beepDue ?c] => destruct (beepDue c) end; simpl;
      rewrite ?Ust, ?Hs, ?piezo_app, ?Uout, ?Hp; simpl.
    all: first [ exists hz, dur; split; [reflexivity | exact Hr]
               | exists ANGRY_BEEP_HZ, ANGRY_BEEP_DUR_MS; split;
                 [reflexivity | unfold ANGRY_BEEP_HZ, ANGRY_BEEP_DUR_MS; lia] ].
  - intros Hp. rewrite piezo_app, ?Uout, Hp. reflexivity.
Qed.

Ltac lamp_done :=
  unfold LampInv, entered, enter_effects; simpl;
  rewrite ?pin_level_app; simpl;
  repeat match goal with H : pin_level _ _ = _ |- _ => rewrite H end;
  simpl; auto.

Lemma LampInv_switch pm t p w :
  LampInv w -> wp (loop_switch pm t p) w (fun _ w' => LampInv w').
Proof.
  intros (HR & HY & HG). unfold loop_switch.
  apply wp_bind, wp_get; cbv beta. apply wp_bind, wp_get; cbv beta.
  destruct (state w) eqn:Hs; wp_switch_x.
  all: lamp_done.
  all: rewrite ?Hs; simpl; auto.
Qed.

Ltac piezo_done :=
  unfold PiezoInv, entered, enter_effects; simpl;
  rewrite ?piezo_app; simpl;
  repeat match goal with H : piezo _ = _ |- _ => rewrite H end;
  simpl.

Lemma PiezoInv_switch pm t p w :
  PiezoInv w -> wp (loop_switch pm t p) w (fun _ w' => PiezoInv w').
Proof.
  unfold PiezoInv at 1. intros Hp. unfold loop_switch.
  apply wp_bind, wp_get; cbv beta. apply wp_bind, wp_get; cbv beta.
  destruct (state w) eqn:Hs; wp_switch_x.
  all: piezo_done; rewrite ?Hs.
  all: try reflexivity.
  all: try (eexists; eexists; split; [reflexivity | lia]).
  all: try exact Hp.
Qed.

Lemma LampInv_loop w : LampInv w -> LampInv (exec loop w).
Proof.
  intros H. rewrite loop_unfold. destruct (live w).
  - apply (wp_exec (loop_switch (patienceOf w) (tiltFired w) (pressFired w))
             (pre_switch w) LampInv).
    apply LampInv_switch, LampInv_pre_switch, H.
  - rewrite after_guard_eq. exact H.
Qed.

Lemma PiezoInv_loop w : PiezoInv w -> PiezoInv (exec loop w).
Proof.
  intros H. rewrite loop_unfold. destruct (live w).
  - apply (wp_exec (loop_switch (patienceOf w) (tiltFired w) (pressFired w))
             (pre_switch w) PiezoInv).
    apply PiezoInv_switch, PiezoInv_pre_switch, H.
  - rewrite after_guard_eq. exact H.
Qed.

Lemma setup_exec w :
  exec setup w =
  entered IDLE "stillness acknowledged." 880 70 0
    (set_anger 0
      (set_rngState
         (Z.lxor (Z.lxor (rngState w)
                    (u32 (Z.shiftl (u32 (s_analog (env w (ioCount w)) PIN_POT)) 16)))
                 (u32 (s_analog (env w (S (ioCount w))) PIN_POT)))
         (set_ioCount (2 + ioCount w)
            (set_out (out w ++ [SerialBegin 9600;
                                PinMode PIN_BUTTON INPUT_PULLUP;
                                PinMode PIN_TILT INPUT_PULLUP;
                                PinMode PIN_PIEZO OUTPUT;
                                PinMode PIN_LED_R OUTPUT;
                                PinMode PIN_LED_Y OUTPUT;
                                PinMode PIN_LED_G OUTPUT]
                             ++ lamp_effects false false false) w)))).
Proof.
  apply (wp_exec setup w (fun w' => w' = _)).
  unfold setup. wp_switch_x.
  repeat rewrite <- app_assoc. reflexivity.
Qed.

Lemma Fx_boot e : LampInv (boot e) /\ PiezoInv (boot e).
Proof.
  unfold boot. rewrite setup_exec. split.
  - unfold LampInv, entered, enter_effects, pin_level. simpl. auto.
  - unfold PiezoInv, entered, enter_effects, piezo. simpl.
    exists 880, 70. split; [reflexivity | lia].
Qed.

Lemma Reachable_Fx w : Reachable w -> LampInv w /\ PiezoInv w.
Proof.
  induction 1 as [e|w R (IH1 & IH2)]; [apply Fx_boot|].
  split; [apply LampInv_loop, IH1 | apply PiezoInv_loop, IH2].
Qed.

(** X10.  Between two passes the three lamps always show the state: the
    yellow lamp is on exactly in ALERT, COOLDOWN and REWARD, the green one
    exactly in IDLE and REWARD, and the red one is on in LOCKED, follows
    the blink phase [angryRedOn] in ANGRY, and is off elsewhere.  ("Is
    on" is the level last written to the pin.) *)
Theorem lamps_show_state w (R : Reachable w) :
  pin_level PIN_LED_R (out w) = Some (lampR (state w) (angryRedOn w)) /\
  pin_level PIN_LED_Y (out w) = Some (lampY (state w)) /\
  pin_level PIN_LED_G (out w) = Some (lampG (state w)).
Proof. apply (Reachable_Fx w R). Qed.

(** X11.  Between two passes the piezo follows the state: in LOCKED the
    last command it got is the continuous 140 Hz tone, which nothing
    stops or replaces while the machine stays locked; in every other
    state the last command is a beep of finite length, at most 90 ms, so
    the drone never outlives LOCKED. *)
Theorem piezo_follows_state w (R : Reachable w) :
  (state w = LOCKED -> piezo (out w) = Some (Continuous LOCKED_TONE_HZ)) /\
  (state w <> LOCKED ->
   exists hz dur, piezo (out w) = Some (OneShot hz dur) /\
                  0 < hz /\ 0 < dur <= 90).
Proof.
  destruct (Reachable_Fx w R) as (_ & H). unfold PiezoInv in H.
  destruct (state w); split; intros Hs; try congruence; exact H.
Qed.

(** ** The ANGRY effects *)

(** X12.  One call of [angryEffectsTick]: the red lamp is toggled, and
    written, exactly when the first clock read has reached [nextBlinkAt],
    and the next deadline is then 200 ms after the second clock read; the
    beep is issued exactly when the following clock read has reached
    [nextBeepAt], and the next deadline is then 120 ms after the read
    that follows.  The state machine is not touched.  The deadlines are
    compared as plain numbers, unlike [elapsed]: a deadline computed
    within the last 200 ms before [millis()] wraps lands below 200, in
    the past of the very clock that set it, so every later call that
    still reads the unwrapped clock blinks again. *)
Theorem angry_effects_schedule w :
  let w' := exec angryEffectsTick w in
  let c0 := clock w (ioCount w) in
  let c1 := clock w (S (ioCount w)) in
  (nextBlinkAt w <= c0 ->
   angryRedOn w' = negb (angryRedOn w) /\
   nextBlinkAt w' = u32 (c1 + ANGRY_BLINK_MS) /\
   pin_level PIN_LED_R (out w') = Some (angryRedOn w') /\
   (c1 + ANGRY_BLINK_MS < 2 ^ 32 -> nextBlinkAt w' = c1 + ANGRY_BLINK_MS) /\
   (2 ^ 32 <= c1 + ANGRY_BLINK_MS ->
    nextBlinkAt w' < ANGRY_BLINK_MS /\ nextBlinkAt w' < c1)) /\
  (c0 < nextBlinkAt w ->
   angryRedOn w' = angryRedOn w /\ nextBlinkAt w' = nextBlinkAt w /\
   pin_level PIN_LED_R (out w') = pin_level PIN_LED_R (out w)) /\
  (let k := if nextBlinkAt w <=? c0 then (2 + ioCount w)%nat else S (ioCount w) in
   (nextBeepAt w <= clock w k ->
    nextBeepAt w' = u32 (clock w (S k) + ANGRY_BEEP_MS) /\
    piezo (out w') = Some (OneShot ANGRY_BEEP_HZ ANGRY_BEEP_DUR_MS)) /\
   (clock w k < nextBeepAt w ->
    nextBeepAt w' = nextBeepAt w /\ piezo (out w') = piezo (out w))) /\
  state w' = state w /\ anger w' = anger w /\ enteredAt w' = enteredAt w /\
  tilt w' = tilt w /\ serial_of (out w') = serial_of (out w).
Proof.
  cbv zeta. rewrite angryEffectsTick_exec.
  unfold beeped, blinked, beepDue, blinkDue, clock.
  pose proof (u32_range (s_millis (env w (S (ioCount w))))) as Hr.
  change (2 ^ 32) with 4294967296 in *.
  set (c1 := u32 (s_millis (env w (S (ioCount w))))) in *.
  assert (Hwrap : 4294967296 <= c1 + 200 -> u32 (c1 + 200) = c1 + 200 - 4294967296).
  { intros H. unfold u32. change (2 ^ 32) with 4294967296.
    rewrite <- (Z.mod_add _ (-1)) by lia. rewrite Z.mod_small; lia. }
  assert (Hsmall : c1 + 200 < 4294967296 -> u32 (c1 + 200) = c1 + 200).
  { intros H. apply u32_small. change (2 ^ 32) with 4294967296. lia. }
  destruct (nextBlinkAt w <=? u32 (s_millis (env w (ioCount w)))) eqn:Eb;
    simpl; rewrite ?Eb; simpl;
    match goal with |- context [nextBeepAt w <=? ?c] =>
      destruct (nextBeepAt w <=? c) eqn:Ep end; simpl; boolZ.
  all: rewrite ?pin_level_app, ?piezo_app, ?serial_of_app; simpl.
  all: rewrite ?append_nil_r.
  all: unfold ANGRY_BLINK_MS in *.
  all: repeat first [ split | intro ].
  all: try reflexivity; try lia.
  all: fold c1; first [ rewrite Hsmall by lia | rewrite Hwrap by lia ]; lia.
Qed.

(** ** The button *)


(** ** The input filters across passes *)

Lemma TiltKept_trans a b c : TiltKept a b -> TiltKept b c -> TiltKept a c.
Proof.
  intros (H1 & H2 & H3) (K1 & K2 & K3).
  split; [congruence|]. split; [lia|].
  destruct K3 as [K3|K3]; [|right; exact K3].
  rewrite K3. exact H3.
Qed.

Lemma BtnKept_trans a b c : BtnKept a b -> BtnKept b c -> BtnKept a c.
Proof.
  intros (H1 & H2 & H3 & H4 & H5) (K1 & K2 & K3 & K4 & K5).
  repeat split; try congruence. lia.
Qed.

Lemma buttonPressEvent_TiltKept w : TiltKept w (exec buttonPressEvent w).
Proof.
  destruct (buttonPressEvent_untouched w)
    as (_ & _ & _ & _ & _ & _ & _ & _ & He & _ & Hi).
  split; [exact He|]. split; [exact Hi|]. left.
  rewrite buttonPressEvent_footprint. reflexivity.
Qed.

Lemma event_BtnKept s w : BtnKept w (exec (event s) w).
Proof.
  destruct (event_untouched s w)
    as (_ & _ & _ & _ & _ & _ & _ & _ & He & _ & Hi).
  split; [exact He|]. split; [exact Hi|].
  rewrite event_footprint. repeat split.
Qed.

Lemma loop_effects_kept w :
  TiltKept w (exec loop_effects w) /\ BtnKept w (exec loop_effects w).
Proof.
  rewrite loop_effects_exec. unfold TiltKept, BtnKept, beeped, blinked.
  destruct (state w); try destruct (blinkDue w); simpl;
    try match goal with |- context [beepDue ?c] => destruct (beepDue c) end; simpl.
  all: repeat split; auto; lia.
Qed.

Lemma loop_switch_kept pm t p w :
  TiltKept w (exec (loop_switch pm t p) w) /\
  BtnKept w (exec (loop_switch pm t p) w).
Proof.
  apply (wp_exec (loop_switch pm t p) w (fun w' => TiltKept w w' /\ BtnKept w w')).
  unfold loop_switch.
  apply wp_bind, wp_get; cbv beta. apply wp_bind, wp_get; cbv beta.
  destruct (state w) eqn:Hs; wp_switch_x.
  all: unfold TiltKept, BtnKept, entered; simpl.
  all: repeat split; auto; lia.
Qed.

Lemma tick_press_eq w :
  snd (tick_inputs w)
  = eval buttonPressEvent
      (exec (event (state w)) (set_ioCount (S (S (ioCount w))) w)).
Proof.
  unfold tick_inputs, eval, exec, loop_inputs, analogRead, sample.
  rewrite after_guard_eq. unfold bind at 1. simpl.
  unfold bind at 1, get at 1. simpl.
  unfold bind at 1.
  change (set_ioCount (S (S (ioCount w))) (set_ioCount (S (ioCount w)) w))
    with (set_ioCount (S (S (ioCount w))) w).
  destruct (event (state w) _) as [t w1]. simpl.
  unfold bind at 1.
  destruct (buttonPressEvent w1) as [p w2]. reflexivity.
Qed.

(** What is left of a live pass after the tilt poll, and after the button
    poll. *)
Lemma loop_tail w :
  live w = true ->
  TiltKept (exec (event (state w)) (set_ioCount (S (S (ioCount w))) w))
           (exec loop w) /\
  BtnKept (exec buttonPressEvent
             (exec (event (state w)) (set_ioCount (S (S (ioCount w))) w)))
          (exec loop w).
Proof.
  intros L. rewrite loop_unfold, L, pre_switch_exec.
  set (v1 := exec (event (state w)) _).
  set (v2 := exec buttonPressEvent v1).
  destruct (loop_effects_kept v2) as (T1 & B1).
  set (v3 := exec loop_effects v2) in *.
  destruct (loop_switch_kept (patienceOf w) (tiltFired w) (pressFired w) v3)
    as (T2 & B2).
  split.
  - eapply TiltKept_trans; [apply buttonPressEvent_TiltKept|].
    eapply TiltKept_trans; [exact T1 | exact T2].
  - eapply BtnKept_trans; [exact B1 | exact B2].
Qed.

Lemma loop_env w :
  env (exec loop w) = env w /\ (ioCount w <= ioCount (exec loop w))%nat.
Proof.
  destruct (live w) eqn:L.
  - destruct (loop_tail w L) as ((He & Hi & _) & _).
    destruct (event_untouched (state w) (set_ioCount (S (S (ioCount w))) w))
      as (_ & _ & _ & _ & _ & _ & _ & _ & He' & _ & Hi').
    simpl in He', Hi'. split; [congruence | lia].
  - rewrite loop_unfold, L, after_guard_eq. simpl. split; [reflexivity | lia].
Qed.

(** *** Tilt *)




Lemma anger_step w :
  0 <= anger w <= MAX_ANGER ->
  0 <= anger (exec loop w) <= MAX_ANGER /\
  anger (exec loop w) <= anger w + (if tiltFired w then 1 else 0).
Proof.
  intros Ha.
  loop_cases w w1.
  { destruct (tiltFired w); lia. }
  all: settle; rewrite ?Heqb; try lia.
  all: destruct (tiltFired w); lia.
Qed.

Lemma anger_tilts n :
  forall w, 0 <= anger w <= MAX_ANGER ->
    anger (run n w) <= anger w + Z.of_nat (tilts n w).
Proof.
  induction n as [|n IH]; intros w Ha; [simpl; lia|].
  destruct (anger_step w Ha) as (Ha' & Hs).
  specialize (IH _ Ha'). simpl run. simpl tilts.
  destruct (tiltFired w); lia.
Qed.


(** *** Button *)

Lemma buttonPressEvent_stable w :
  (eval buttonPressEvent w = true -> btn_stable (exec buttonPressEvent w) = LOW) /\
  (btn_stable w = LOW -> btn_raw w = LOW ->
   eval buttonPressEvent w = false /\ btn_stable (exec buttonPressEvent w) = LOW).
Proof.
  change (wp buttonPressEvent w (fun r w' =>
    (r = true -> btn_stable w' = LOW) /\
    (btn_stable w = LOW -> btn_raw w = LOW -> r = false /\ btn_stable w' = LOW))).
  unfold btn_raw, LOW.
  destruct (s_digital (env w (ioCount w)) PIN_BUTTON) eqn:Hraw;
  destruct (btn_stable w) eqn:Hst;
  unfold buttonPressEvent;
  repeat (wp_prim; cbv beta; simpl; rewrite ?Hraw, ?Hst; simpl).
  all: rewrite ?Hraw, ?Hst.
  all: repeat match goal with
              | H : _ && _ = true |- _ => apply andb_true_iff in H; destruct H
              end.
  all: repeat split; intros; try congruence; try reflexivity.
Qed.

Lemma held_down_kept w w' :
  env w' = env w -> (ioCount w <= ioCount w')%nat -> held_down w -> held_down w'.
Proof. intros He Hi H k Hk. rewrite He. apply H. lia. Qed.

Lemma pass_pressed w :
  held_down w ->
  (btn_stable w = LOW -> pressFired w = false /\ btn_stable (exec loop w) = LOW) /\
  (pressFired w = true -> btn_stable (exec loop w) = LOW).
Proof.
  intros HD. unfold pressFired. destruct (live w) eqn:L; simpl.
  - rewrite tick_press_eq.
    destruct (loop_tail w L) as (_ & (_ & _ & HB & _)).
    destruct (event_BtnKept (state w) (set_ioCount (S (S (ioCount w))) w))
      as (He & Hi & Hs & _).
    set (v1 := exec (event (state w)) _) in *.
    destruct (buttonPressEvent_stable v1) as (Hf & Hq).
    rewrite HB. simpl in He, Hi, Hs. split.
    + intros Hst. apply Hq; [congruence|].
      unfold btn_raw. rewrite He. apply HD. lia.
    + exact Hf.
  - split; [|discriminate]. intros Hst. split; [reflexivity|].
    rewrite loop_unfold, L, after_guard_eq. exact Hst.
Qed.

Lemma presses_held n :
  forall w, held_down w ->
    (presses n w <= 1)%nat /\ (btn_stable w = LOW -> presses n w = 0%nat).
Proof.
  induction n as [|n IH]; intros w HD; [simpl; split; [lia | reflexivity]|].
  destruct (loop_env w) as (He & Hi).
  destruct (IH _ (held_down_kept w _ He Hi HD)) as (IH1 & IH0).
  destruct (pass_pressed w HD) as (Hq & Hf).
  simpl. split.
  - destruct (pressFired w) eqn:E; [|exact IH1].
    rewrite (IH0 (Hf eq_refl)). lia.
  - intros Hst. destruct (Hq Hst) as (E & Hst'). rewrite E, (IH0 Hst'). reflexivity.
Qed.

(** X8.  Holding the button down yields one press, not a stream: over any
    number of passes during which the pin reads LOW, at most one pass
    reports a press, and none does once the debounced level is LOW.  The
    press is looked at in ALERT only: in every other state the switch
    runs as if no press had been reported, so a press detected there is
    used up without effect. *)
Theorem one_press_while_held n w (HD : held_down w) :
  (presses n w <= 1)%nat /\
  (btn_stable w = LOW -> presses n w = 0%nat) /\
  (forall pm t p v, state v <> ALERT ->
     loop_switch pm t p v = loop_switch pm t false v).
Proof.
  destruct (presses_held n w HD) as (H1 & H0).
  split; [exact H1|]. split; [exact H0|].
  intros pm t p v Hs. unfold loop_switch, bind, get.
  destruct (state v); try reflexivity. congruence.
Qed.

(** *** A sensor held active *)

Lemma held_tilted_kept w w' :
  env w' = env w -> (ioCount w <= ioCount w')%nat -> held_tilted w -> held_tilted w'.
Proof. intros He Hi H k Hk. rewrite He. apply H. lia. Qed.

Lemma unarmed_kept w w' :
  TiltKept w w' -> armed (tilt w) = false -> armed (tilt w') = false.
Proof. intros (_ & _ & [Ht|(Ha & _)]) H; [rewrite Ht; exact H | exact Ha]. Qed.

Lemma pass_tilted w :
  held_tilted w ->
  (armed (tilt w) = false ->
   tiltFired w = false /\ armed (tilt (exec loop w)) = false) /\
  (tiltFired w = true -> armed (tilt (exec loop w)) = false).
Proof.
  intros HT. unfold tiltFired. destruct (live w) eqn:L; simpl.
  - rewrite tick_tilt_eq.
    destruct (loop_tail w L) as (HK & _).
    set (v0 := set_ioCount (S (S (ioCount w))) w) in *.
    destruct (event_polled (state w) v0)
      as (_ & _ & _ & Hfire & Hquiet & Hrearm & _).
    assert (Hraw : tilt_raw v0 = true).
    { unfold tilt_raw, v0. simpl. apply HT. lia. }
    split.
    + intros Ha. split; [apply Hquiet, Ha|].
      apply (unarmed_kept _ _ HK).
      destruct (armed (tilt (exec (event (state w)) v0))) eqn:E; [|reflexivity].
      destruct (Hrearm Ha eq_refl) as (Hf & _). congruence.
    + intros Hf. apply (unarmed_kept _ _ HK).
      destruct (Hfire Hf) as (_ & _ & Ha & _). exact Ha.
  - split; [|discriminate]. intros Ha. split; [reflexivity|].
    rewrite loop_unfold, L, after_guard_eq. exact Ha.
Qed.

Lemma tilts_held n :
  forall w, held_tilted w ->
    (tilts n w <= 1)%nat /\ (armed (tilt w) = false -> tilts n w = 0%nat).
Proof.
  induction n as [|n IH]; intros w HT; [simpl; split; [lia | reflexivity]|].
  destruct (loop_env w) as (He & Hi).
  destruct (IH _ (held_tilted_kept w _ He Hi HT)) as (IH1 & IH0).
  destruct (pass_tilted w HT) as (Hq & Hf).
  simpl. split.
  - destruct (tiltFired w) eqn:E; [|exact IH1].
    rewrite (IH0 (Hf eq_refl)). lia.
  - intros Ha. destruct (Hq Ha) as (E & Ha'). rewrite E, (IH0 Ha'). reflexivity.
Qed.

(** X18.  The detector reports edges, not levels: over any number of
    passes during which the tilt pin reads active, at most one pass sees a
    tilt event, and none does if the detector is disarmed at the start --
    as it is after [setup] and after every state entry.  So a device that
    is powered on tilted and left tilted never leaves IDLE for ALERT. *)
Theorem held_tilt_fires_once n w (HT : held_tilted w) :
  (tilts n w <= 1)%nat /\
  (armed (tilt w) = false -> tilts n w = 0%nat) /\
  (forall e, w = boot e -> tilts n w = 0%nat).
Proof.
  destruct (tilts_held n w HT) as (H1 & H0).
  split; [exact H1|]. split; [exact H0|].
  intros e ->. apply H0.
  unfold boot. destruct (setup_spec (power_on e)) as (_ & _ & _ & _ & _ & Ha & _).
  exact Ha.
Qed.

(** *** Anger needs tilts *)

(** X17.  The anger level can rise only through tilt events: over any
    number of passes it rises by at most the number of passes that saw
    one.  A machine started by [setup] is therefore never LOCKED before
    three passes have seen a tilt event, and never ANGRY before one
    has. *)
Theorem lock_needs_three_tilts n w (Ha : 0 <= anger w <= MAX_ANGER) :
  anger (run n w) <= anger w + Z.of_nat (tilts n w) /\
  (forall e, w = boot e ->
     (state (run n w) = LOCKED -> (3 <= tilts n w)%nat) /\
     (state (run n w) = ANGRY -> (1 <= tilts n w)%nat)).
Proof.
  pose proof (anger_tilts n w Ha) as Hb.
  split; [exact Hb|].
  intros e ->.
  assert (Ha0 : anger (boot e) = 0).
  { unfold boot. destruct (setup_spec (power_on e)) as (_ & H & _). exact H. }
  rewrite Ha0 in Hb.
  destruct (Reachable_AngerInv _ (Reachable_run n _ (Reachable_boot e)))
    as (_ & Hang & Hlk & _).
  unfold MAX_ANGER in *.
  split; intros Hs; [specialize (Hlk Hs) | specialize (Hang Hs)]; lia.
Qed.

(** ** The serial tag *)

Lemma append_inv_tail (a b c : string) : a ++ c = b ++ c -> a = b.
Proof.
  intros H.
  assert (Hl : String.length a = String.length b).
  { apply (f_equal String.length) in H.
    assert (Hlen : forall x y, String.length (x ++ y)
                               = (String.length x + String.length y)%nat).
    { induction x; simpl; intros; [reflexivity | now rewrite IHx]. }
    rewrite !Hlen in H. lia. }
  revert b H Hl.
  induction a as [|x a IH]; intros [|y b] H Hl; simpl in *; try discriminate.
  - reflexivity.
  - injection H as -> H. f_equal. apply IH; [exact H | lia].
Qed.

(** X14.  Distinct states print distinct tags, and a message line gives
    back both the state it was written in and the message: the serial
    output can be read back without ambiguity. *)
Theorem tag_identifies_state s s' m m' :
  msg_text s m = msg_text s' m' -> s = s' /\ m = m'.
Proof.
  unfold msg_text. intros H.
  assert (Hs : s = s').
  { destruct s, s'; simpl in H; try reflexivity; discriminate H. }
  subst s'. split; [reflexivity|].
  apply (append_inv_tail m m' crlf).
  destruct s; simpl in H; injection H; auto.
Qed.

(** ** The further theorems at concrete inputs *)

Lemma elapsed_modular_witness :
  eval (elapsed (enteredAt wrapped_world) 200) wrapped_world = true /\
  ioCount (exec (elapsed (enteredAt wrapped_world) 200) wrapped_world) = 1%nat.
Proof.
  destruct (elapsed_modular 4294967196 200 200 wrapped_world
              ltac:(vm_compute; reflexivity)) as (Hv & _ & Hw).
  split.
  - change (enteredAt wrapped_world) with (u32 4294967196). rewrite Hv.
    vm_compute. reflexivity.
  - change (enteredAt wrapped_world) with (u32 4294967196). rewrite Hw.
    reflexivity.
Defined.

Lemma patience_follows_pot_witness :
  patienceOf idle_world <= patienceOf idle_world' /\
  14 <= patienceOf idle_world' - patienceOf idle_world <= 15.
Proof.
  destruct (patience_follows_pot idle_world idle_world'
              ltac:(vm_compute; split; discriminate)
              ltac:(vm_compute; split; discriminate)) as (_ & _ & Hm & Hs).
  split.
  - apply Hm. vm_compute. discriminate.
  - apply Hs. vm_compute. reflexivity.
Defined.

Lemma xorshift32_inj_witness : 0 <= 1 < 2 ^ 32 /\ 1 = 1.
Proof.
  split; [lia|].
  apply (xorshift32_inj 1 1 ltac:(lia) ltac:(lia)). reflexivity.
Defined.

Lemma idle_to_alert_witness :
  state armed_world = IDLE /\ state (exec loop armed_world) = ALERT.
Proof.
  split; [reflexivity|].
  destruct (idle_to_alert armed_world eq_refl) as (Hiff & _).
  apply Hiff. vm_compute. reflexivity.
Defined.

Lemma alert_exits_witness :
  state (exec loop alert_world) = IDLE /\ state (exec loop pressing_world) = IDLE.
Proof.
  split.
  - destruct (alert_exits alert_world eq_refl) as (_ & _ & _ & Hst & _).
    apply (Hst 10500 (frozen_steady ALERT 1 0 0 10500 LOW HIGH 512 ltac:(lia))).
    split; [vm_compute; reflexivity|].
    right. vm_compute. discriminate.
  - destruct (alert_exits pressing_world eq_refl) as (_ & _ & Hiff & _).
    apply Hiff.
    split; [vm_compute; reflexivity|].
    split; [vm_compute; reflexivity|].
    left. vm_compute. reflexivity.
Defined.

Lemma cooldown_exits_witness :
  state (exec loop cooldown_world) = IDLE /\
  anger (exec loop cooldown_world) = 1.
Proof.
  destruct (cooldown_exits cooldown_world eq_refl) as (_ & _ & _ & Hst & Hkeep).
  assert (Hidle : state (exec loop cooldown_world) = IDLE).
  { apply (Hst 10500 (frozen_steady COOLDOWN 1 500 0 10500 LOW HIGH 512 ltac:(lia))).
    split; [vm_compute; reflexivity | vm_compute; discriminate]. }
  split; [exact Hidle|]. rewrite (Hkeep Hidle). reflexivity.
Defined.

Lemma reward_exits_witness : state (exec loop reward_world) = IDLE.
Proof.
  destruct (reward_exits reward_world eq_refl) as (_ & _ & _ & Hst & _).
  apply (Hst 8500 (frozen_steady REWARD 0 500 0 8500 LOW HIGH 512 ltac:(lia))).
  split; [vm_compute; reflexivity | vm_compute; discriminate].
Defined.

Lemma angry_to_cooldown_witness :
  state (exec loop calming_world) = COOLDOWN /\
  bumped angry_world = MAX_ANGER.
Proof.
  split; [|vm_compute; reflexivity].
  destruct (angry_to_cooldown calming_world eq_refl
              ltac:(simpl; unfold MAX_ANGER; lia)) as (_ & _ & Hst).
  apply (Hst 16000 (frozen_steady ANGRY 2 1000 0 16000 LOW HIGH 512 ltac:(lia))).
  split; [vm_compute; reflexivity | vm_compute; discriminate].
Defined.

Lemma held_down_frozen s a ea hold t tp pot st lr ca :
  held_down (set_btn st lr ca (world_at s a ea hold (frozen_env t tp LOW pot))).
Proof. intros k _. reflexivity. Qed.

Lemma one_press_while_held_witness :
  pressFired pressing_world = true /\ (presses 5 pressing_world <= 1)%nat.
Proof.
  split; [vm_compute; reflexivity|].
  apply (one_press_while_held 5 pressing_world).
  apply held_down_frozen.
Defined.

Lemma lamps_show_state_witness :
  state (run 35 (boot busy_env)) = LOCKED /\
  pin_level PIN_LED_R (out (run 35 (boot busy_env))) = Some true /\
  pin_level PIN_LED_Y (out (run 35 (boot busy_env))) = Some false /\
  pin_level PIN_LED_G (out (run 35 (boot busy_env))) = Some false.
Proof.
  destruct (lamps_show_state (run 35 (boot busy_env))
              (Reachable_run 35 _ (Reachable_boot busy_env))) as (HR & HY & HG).
  split; [vm_compute; reflexivity|].
  rewrite HR, HY, HG.
  split; [vm_compute; reflexivity|]. split; vm_compute; reflexivity.
Defined.

Lemma piezo_follows_state_witness :
  piezo (out (run 35 (boot busy_env))) = Some (Continuous 140) /\
  piezo (out (run 88 (boot busy_env))) = Some (OneShot 988 70).
Proof.
  split.
  - destruct (piezo_follows_state (run 35 (boot busy_env))
                (Reachable_run 35 _ (Reachable_boot busy_env))) as (H & _).
    apply H. vm_compute. reflexivity.
  - destruct (piezo_follows_state (run 88 (boot busy_env))
                (Reachable_run 88 _ (Reachable_boot busy_env))) as (_ & H).
    destruct (H ltac:(vm_compute; discriminate)) as (hz & dur & Hp & _).
    vm_compute. reflexivity.
Defined.


Lemma held_tilted_boot : held_tilted (boot tilted_env).
Proof.
  intros k _. unfold boot.
  destruct (setup_spec (power_on tilted_env)) as (_ & _ & _ & He & _).
  rewrite He. reflexivity.
Qed.

Lemma held_tilt_fires_once_witness :
  tilts 60 (boot tilted_env) = 0%nat /\ state (run 60 (boot tilted_env)) <> ALERT.
Proof.
  destruct (held_tilt_fires_once 60 (boot tilted_env) held_tilted_boot)
    as (_ & _ & H).
  split; [apply (H tilted_env eq_refl)|].
  vm_compute. discriminate.
Defined.

Lemma lock_needs_three_tilts_witness :
  state (run 35 (boot busy_env)) = LOCKED /\ (3 <= tilts 35 (boot busy_env))%nat.
Proof.
  assert (Hs : state (run 35 (boot busy_env)) = LOCKED) by (vm_compute; reflexivity).
  split; [exact Hs|].
  destruct (lock_needs_three_tilts 35 (boot busy_env)
              ltac:(vm_compute; split; discriminate)) as (_ & H).
  destruct (H busy_env eq_refl) as (Hl & _).
  apply Hl, Hs.
Defined.

Lemma tag_identifies_state_witness :
  ANGRY = ANGRY /\ "stop." = "stop.".
Proof. apply (tag_identifies_state ANGRY ANGRY "stop." "stop." eq_refl). Defined.

(** ** Further runs *)

(** A button held down in ALERT: one press, which sends the machine back
    to IDLE, and silence afterwards. *)
Example held_button_run :
  presses 5 pressing_world = 1%nat /\
  state (exec loop pressing_world) = IDLE /\
  presses 4 (exec loop pressing_world) = 0%nat.
Proof. vm_compute. repeat split. Qed.

(** A device shaken in bursts: four tilt events lead to the lockout. *)
Example shaken_run :
  List.map (fun n => tilts n (boot busy_env)) [11; 21; 28; 35]%nat
  = [1; 2; 3; 4]%nat.
Proof. vm_compute. reflexivity. Qed.

(** The blink phase in ANGRY: the first live pass toggles the red lamp
    off and beeps. *)
Example first_angry_pass :
  angryRedOn (exec angryEffectsTick blinking_world) = false /\
  nextBlinkAt (exec angryEffectsTick blinking_world) = 1200 /\
  nextBeepAt (exec angryEffectsTick blinking_world) = 1120.
Proof. vm_compute. repeat split. Qed.
